(** * groupChatBackend: presence, delivery and acknowledgment core

    A shallow embedding of the chat backend's socket handlers
    ([socket.js]), the direct-chat controller
    ([controllers/chat.controller.js]) and the group controller
    ([controllers/group.controller.js]), and the properties of the
    specification checked against it.

    Conventions of the embedding.
    - The two process-wide JavaScript [Map]s are modelled differently on
      purpose.  [onlineUsers] is iterated by the disconnect handler and by
      the group send, so its insertion order is observable: it is an
      insertion-ordered association list ([JsMap]).  [messageCache] is only
      read and written by key (and swept as a whole), so it is a [gmap].
    - The Message collection is a list of documents in creation order; a
      fresh [_id] is the current length of the collection.
    - [Date.now()] / [new Date()] is an explicit argument [now], in
      milliseconds.
    - Every handler is first given as one step that runs to completion:
      the storage calls it awaits are applied at once, in program order,
      and they succeed.  The history queries take an explicit account of
      how and when the storage promise settles ([Settle]), because the
      handlers react to it.  The two acknowledgment handlers read a
      message, await, and then write on what they read; they are given a
      second time split at that await ([suspend], [resume]), so that the
      writes of other handlers can land in between.
    - Ids are the strings the handlers compare; the writes that both
      socket handlers make to the User collection ([isOnline],
      [lastSeen]) are not part of [Store] and are given apart
      ([joinUserWrite], [disconnectUserWrite]). *)

From stdpp Require Import gmap strings list fin_maps sorting.
From Stdlib Require Import ZArith Sorted.

Local Open Scope Z_scope.

(** ** An insertion-ordered map: the JavaScript [Map] behind [onlineUsers] *)

Module JsMap.

Definition t (V : Type) : Type := list (string * V).

Definition empty {V} : t V := [].

(** [Map.prototype.get]: [None] is JavaScript's [undefined]. *)
Fixpoint get {V} (m : t V) (k : string) : option V :=
  match m with
  | [] => None
  | (k', v) :: m' => if decide (k' = k) then Some v else get m' k
  end.

(** [Map.prototype.set]: an existing key keeps its position, a new key
    goes last. *)
Fixpoint set {V} (m : t V) (k : string) (v : V) : t V :=
  match m with
  | [] => [(k, v)]
  | (k', v') :: m' =>
      if decide (k' = k) then (k', v) :: m' else (k', v') :: set m' k v
  end.

(** [Map.prototype.delete]. *)
Fixpoint delete {V} (m : t V) (k : string) : t V :=
  match m with
  | [] => []
  | (k', v') :: m' =>
      if decide (k' = k) then m' else (k', v') :: delete m' k
  end.

(** [Array.from(m.keys())], in insertion order. *)
Definition keys {V} (m : t V) : list string := m.*1.

(** A JavaScript [Map] holds each key once. *)
Definition wf {V} (m : t V) : Prop := NoDup (keys m).

End JsMap.

(** ** Data model ([models/Message.js]) *)

Inductive Status : Type := sent | delivered | read.

#[global] Instance Status_eq_dec : EqDecision Status.
Proof. solve_decision. Defined.

(** Position of a status on the line sent, delivered, read. *)
Definition rank (st : Status) : nat :=
  match st with sent => 0%nat | delivered => 1%nat | read => 2%nat end.

(** An element of [deliveredTo] or [readBy]: [{ userId, deliveredAt }]
    or [{ userId, readAt }]; [stamp] is the date. *)
Record Receipt : Type := mkReceipt { userId : string; stamp : Z }.

#[global] Instance Receipt_eq_dec : EqDecision Receipt.
Proof. solve_decision. Defined.

Record Message : Type := mkMessage {
  _id : nat;
  senderId : string;
  receiverId : option string;
  groupId : option string;
  message : string;
  status : Status;
  deliveredTo : list Receipt;
  readBy : list Receipt;
  createdAt : Z
}.

#[global] Instance Message_eq_dec : EqDecision Message.
Proof. solve_decision. Defined.

Definition setStatus (st : Status) (m : Message) : Message :=
  mkMessage (_id m) (senderId m) (receiverId m) (groupId m) (message m)
            st (deliveredTo m) (readBy m) (createdAt m).

(** [$push: { deliveredTo: r }] *)
Definition pushDeliveredTo (r : Receipt) (m : Message) : Message :=
  mkMessage (_id m) (senderId m) (receiverId m) (groupId m) (message m)
            (status m) (deliveredTo m ++ [r]) (readBy m) (createdAt m).

(** [$push: { readBy: r }] *)
Definition pushReadBy (r : Receipt) (m : Message) : Message :=
  mkMessage (_id m) (senderId m) (receiverId m) (groupId m) (message m)
            (status m) (deliveredTo m) (readBy m ++ [r]) (createdAt m).

(** ** Process state and storage *)

Record Store : Type := mkStore {
  onlineUsers : JsMap.t string;          (* socket.js: userId -> socket.id *)
  messageCache : gmap string Z;          (* group.controller.js: key -> Date.now() *)
  messages : list Message;               (* the Message collection *)
  groups : gmap string (list string);    (* the Group collection: groupId -> members *)
  users : gset string                    (* ids of the documents of the User collection *)
}.

Definition withOnlineUsers (reg : JsMap.t string) (s : Store) : Store :=
  mkStore reg (messageCache s) (messages s) (groups s) (users s).

Definition withMessageCache (c : gmap string Z) (s : Store) : Store :=
  mkStore (onlineUsers s) c (messages s) (groups s) (users s).

Definition withMessages (ms : list Message) (s : Store) : Store :=
  mkStore (onlineUsers s) (messageCache s) ms (groups s) (users s).

(** ** Events emitted towards clients *)

Inductive Payload : Type :=
| onlineUsersEvent (roster : list string)
| receiveMessage (m : Message)
| receiveGroupMessage (m : Message)
| messageStatusUpdate (messageId : nat) (st : Status)
| messagesMarkedRead (receiver : string)
| messagesRead (receiver : string)
| messagesDelivered (receiver : string).

Inductive Emit : Type :=
| ioEmit (p : Payload)                       (* io.emit(...) : every client *)
| ioTo (socketId : string) (p : Payload).    (* io.to(socketId).emit(...) *)

(** JavaScript truthiness of a value that is a string or [undefined]:
    what [if (x)] tests. *)
Definition truthy (x : option string) : option string :=
  match x with
  | Some s => if decide (s = "") then None else Some s
  | None => None
  end.

(** ** PresenceRegistry ([socket.js]) *)

(** [socket.on("join")]: lines 11-26.  The write to the User collection
    is [joinUserWrite]. *)
Definition join (socketId userId : string) (s : Store) : Store * list Emit :=
  let reg := JsMap.set (onlineUsers s) userId socketId in
  (withOnlineUsers reg s, [ioEmit (onlineUsersEvent (JsMap.keys reg))]).

(** The loop of the disconnect handler, lines 162-168: the key of the
    first entry, in iteration order, whose value is the socket's id. *)
Fixpoint disconnectedUserId (entries : JsMap.t string) (socketId : string)
  : option string :=
  match entries with
  | [] => None
  | (key, value) :: rest =>
      if decide (value = socketId) then Some key
      else disconnectedUserId rest socketId
  end.

(** [socket.on("disconnect")]: lines 158-182.  The entry found by the loop
    is deleted by key and the loop stops; the roster is broadcast in every
    case.  The write to the User collection is [disconnectUserWrite]. *)
Definition disconnect (socketId : string) (s : Store) : Store * list Emit :=
  let reg :=
    match disconnectedUserId (onlineUsers s) socketId with
    | Some key => JsMap.delete (onlineUsers s) key
    | None => onlineUsers s
    end in
  (withOnlineUsers reg s, [ioEmit (onlineUsersEvent (JsMap.keys reg))]).

(** ** Storage collaborator: the Message collection *)

(** [Message.findById(id)]: [None] is [null]. *)
Definition findById (ms : list Message) (id : nat) : option Message :=
  List.find (λ m, bool_decide (_id m = id)) ms.

(** [Message.findByIdAndUpdate(id, update)]: the document with that id is
    rewritten in place. *)
Fixpoint findByIdAndUpdate (id : nat) (update : Message → Message)
  (ms : list Message) : list Message :=
  match ms with
  | [] => []
  | m :: ms' =>
      if decide (_id m = id) then update m :: ms'
      else m :: findByIdAndUpdate id update ms'
  end.

(** [Message.updateMany(filter, update)]. *)
Definition updateMany (query : Message → bool) (update : Message → Message)
  (ms : list Message) : list Message :=
  (λ m, if query m then update m else m) <$> ms.

(** [Message.create(doc)]: the document is appended; [timestamps: true]
    sets [createdAt]. *)
Definition create (doc : Message) (ms : list Message) : list Message :=
  ms ++ [doc].

(** ** StatusTracker ([socket.js] and [chat.controller.js]) *)

(** The notification block shared by both acknowledgment handlers
    (lines 85-91 and 119-125): the status named in the event is the
    literal written in the handler. *)
Definition notifySender (s : Store) (m : Message) (messageId : nat)
  (literal : Status) : list Emit :=
  match truthy (JsMap.get (onlineUsers s) (senderId m)) with
  | Some senderSocket => [ioTo senderSocket (messageStatusUpdate messageId literal)]
  | None => []
  end.

(** [socket.on("messageDelivered")]: lines 63-97, run to completion with
    no other write in between.  Split at its await it is [suspend] and
    [resume]. *)
Definition messageDelivered (messageId : nat) (uid : string) (now : Z)
  (s : Store) : Store * list Emit :=
  match findById (messages s) messageId with
  | None => (s, [])
  | Some m =>
      let ms :=
        match groupId m with
        | Some _ =>
            if existsb (λ d, bool_decide (userId d = uid)) (deliveredTo m)
            then messages s
            else findByIdAndUpdate messageId
                   (λ doc, setStatus
                             (if decide (status m = sent) then delivered
                              else status m)
                             (pushDeliveredTo (mkReceipt uid now) doc))
                   (messages s)
        | None =>
            if decide (status m = sent)
            then findByIdAndUpdate messageId (setStatus delivered) (messages s)
            else messages s
        end in
      (withMessages ms s, notifySender s m messageId delivered)
  end.

(** [socket.on("messageRead")]: lines 100-131, run to completion with no
    other write in between.  Split at its await it is [suspend] and
    [resume]. *)
Definition messageRead (messageId : nat) (uid : string) (now : Z)
  (s : Store) : Store * list Emit :=
  match findById (messages s) messageId with
  | None => (s, [])
  | Some m =>
      let ms :=
        match groupId m with
        | Some _ =>
            if existsb (λ r, bool_decide (userId r = uid)) (readBy m)
            then messages s
            else findByIdAndUpdate messageId
                   (pushReadBy (mkReceipt uid now)) (messages s)
        | None => findByIdAndUpdate messageId (setStatus read) (messages s)
        end in
      (withMessages ms s, notifySender s m messageId read)
  end.

(** The filter [{ senderId, receiverId, status: { $ne: "read" } }]. *)
Definition unreadFromTo (sender receiver : string) (m : Message) : bool :=
  bool_decide (senderId m = sender)
  && bool_decide (receiverId m = Some receiver)
  && bool_decide (status m ≠ read).

(** [socket.on("markMessagesRead")]: lines 134-155. *)
Definition markMessagesRead (sender receiver : string) (s : Store)
  : Store * list Emit :=
  (withMessages (updateMany (unreadFromTo sender receiver) (setStatus read)
                   (messages s)) s,
   match truthy (JsMap.get (onlineUsers s) sender) with
   | Some senderSocket => [ioTo senderSocket (messagesMarkedRead receiver)]
   | None => []
   end).

(** ** HTTP responses *)

Record Pagination : Type := mkPagination {
  currentPage : Z;
  totalPages : Z;
  totalMessages : Z;
  hasMore : bool
}.

Inductive Response : Type :=
| json200page (msgs : list Message) (pagination : Pagination)
| json200 (text : string)
| json201 (created : Message)
| json400 (text : string)
| json500 (text : string)
| noResponse.                  (* the handler is still awaiting storage *)

(** [exports.markAsRead]: chat.controller.js lines 164-189; [receiver] is
    the authenticated user. *)
Definition markAsRead (sender receiver : string) (s : Store)
  : Store * list Emit * Response :=
  (withMessages (updateMany (unreadFromTo sender receiver) (setStatus read)
                   (messages s)) s,
   match truthy (JsMap.get (onlineUsers s) sender) with
   | Some senderSocketId => [ioTo senderSocketId (messagesRead receiver)]
   | None => []
   end,
   json200 "Messages marked as read").

(** ** DuplicateSuppressor ([group.controller.js]) *)

(** The cache key of line 350. *)
Definition cacheKey (sender group body : string) : string :=
  sender +:+ ":" +:+ group +:+ ":" +:+ body.

(** The duplicate check of [sendGroupMessage], lines 351-359: the answer
    ([true]: the request is a duplicate) and the cache afterwards.  A
    stored timestamp counts only if it is truthy ([lastRequest && ...]). *)
Definition shouldSuppress (key : string) (now : Z) (cache : gmap string Z)
  : bool * gmap string Z :=
  match cache !! key with
  | Some lastRequest =>
      if decide (lastRequest ≠ 0 ∧ now - lastRequest < 3000)
      then (true, cache)
      else (false, <[key := now]> cache)
  | None => (false, <[key := now]> cache)
  end.

(** The [setInterval] callback of lines 178-185. *)
Definition sweep (now : Z) (s : Store) : Store :=
  withMessageCache
    (filter (λ kv, ¬ (now - kv.2 > 10000)) (messageCache s)) s.

(** ** DeliveryRouter *)

(** [exports.sendMessage]: chat.controller.js lines 85-161.  An empty
    string stands for a missing field of the request body. *)
Definition sendMessage (sender receiver body : string) (now : Z) (s : Store)
  : Store * list Emit * Response :=
  if decide (receiver = "" ∨ body = "")
  then (s, [], json400 "Receiver and message are required")
  else
    let receiverSocketId := truthy (JsMap.get (onlineUsers s) receiver) in
    let initialStatus :=
      match receiverSocketId with Some _ => delivered | None => sent end in
    let newMessage :=
      mkMessage (length (messages s)) sender (Some receiver) None body
                initialStatus [] [] now in
    (withMessages (create newMessage (messages s)) s,
     match receiverSocketId with
     | Some sock => [ioTo sock (receiveMessage newMessage)]
     | None => []
     end,
     json201 newMessage).

(** The [forEach] of lines 363-370: one entry per key of [onlineUsers]
    other than the sender, in iteration order. *)
Definition onlineOthers (reg : JsMap.t string) (sender : string) (now : Z)
  : list Receipt :=
  (λ uid, mkReceipt uid now)
    <$> filter (λ uid, uid ≠ sender) (JsMap.keys reg).

(** The document handed to [Message.create] by the group send, lines
    363-379: [deliveredTo] is the list built by the [forEach], [status] is
    [deliveredTo.length > 0 ? "delivered" : "sent"]. *)
Definition groupDocument (sender group body : string) (now : Z) (s : Store)
  : Message :=
  let delivered_to := onlineOthers (onlineUsers s) sender now in
  mkMessage (length (messages s)) sender None (Some group) body
            (if decide (0 < length delivered_to)%nat then delivered else sent)
            delivered_to [] now.

(** The emission loop of lines 405-413 (and its fallback, 421-431): the
    members of the group other than the sender that have a socket. *)
Definition groupRecipients (reg : JsMap.t string) (sender : string)
  (groupMemberIds : list string) : list string :=
  omap (λ memberId,
          if decide (memberId ≠ sender)
          then truthy (JsMap.get reg memberId) else None)
       groupMemberIds.

(** [exports.sendGroupMessage]: group.controller.js lines 337-449.  The
    best-effort bump of the group's [updatedAt] is not part of the state. *)
Definition sendGroupMessage (sender group body : string) (now : Z) (s : Store)
  : Store * list Emit * Response :=
  if decide (group = "" ∨ body = "")
  then (s, [], json400 "Group and message are required")
  else
    let '(duplicate, cache) :=
      shouldSuppress (cacheKey sender group body) now (messageCache s) in
    if duplicate
    then (s, [], json200 "Duplicate request ignored")
    else
      let newMessage := groupDocument sender group body now s in
      let groupMemberIds := default [] (groups s !! group) in
      (withMessages (create newMessage (messages s)) (withMessageCache cache s),
       (λ sock, ioTo sock (receiveGroupMessage newMessage))
         <$> groupRecipients (onlineUsers s) sender groupMemberIds,
       json201 newMessage).

(** ** HistoryReader *)

(** How the storage promise of a history query settles: fulfilled or
    rejected after [elapsed] milliseconds, or never. *)
Inductive Settle : Type :=
| fulfilled (elapsed : Z)
| rejected (elapsed : Z)
| pending.

(** [parseInt(x) || d]: [None] is [NaN]. *)
Definition orDefault (parsed : option Z) (d : Z) : Z :=
  match parsed with
  | Some n => if decide (n = 0) then d else n
  | None => d
  end.

(** [.sort({ createdAt: -1 })]: newest first.  The storage's sort is
    modelled by a merge sort on the creation date. *)
Definition newerFirst (a b : Message) : Prop := createdAt b ≤ createdAt a.

#[global] Instance newerFirst_dec (a b : Message) : Decision (newerFirst a b).
Proof. unfold newerFirst. apply _. Defined.

Definition sortDesc (l : list Message) : list Message :=
  merge_sort newerFirst l.

(** [Message.find(query).sort({createdAt: -1}).skip(skip).limit(limit)]:
    the storage rejects a negative skip, reads a negative limit as its
    absolute value and a zero limit as no limit. *)
Definition findPage (query : Message → bool) (skip limit : Z)
  (ms : list Message) : option (list Message) :=
  if decide (skip < 0) then None
  else
    let rest := drop (Z.to_nat skip) (sortDesc (List.filter query ms)) in
    Some (if decide (limit = 0) then rest
          else take (Z.to_nat (Z.abs limit)) rest).

(** [Message.countDocuments(query)] *)
Definition countDocuments (query : Message → bool) (ms : list Message) : Z :=
  Z.of_nat (length (List.filter query ms)).

(** [Promise.all([count, find])] against the collection: what the combined
    promise settles to, and when. *)
Inductive Settled : Type :=
| resolvedWith (elapsed : Z) (total : Z) (page : list Message)
| rejectedAt (elapsed : Z)
| neverSettles.

Definition queryPromise (o : Settle) (query : Message → bool)
  (skip limit : Z) (ms : list Message) : Settled :=
  match o with
  | fulfilled e =>
      match findPage query skip limit ms with
      | Some page => resolvedWith e (countDocuments query ms) page
      | None => rejectedAt e
      end
  | rejected e => rejectedAt e
  | pending => neverSettles
  end.

(** [Math.ceil(a / b)] on integers, [b] non-zero. *)
Definition ceilDiv (a b : Z) : Z := - ((- a) / b).

(** The query of [getMessages], lines 23-29. *)
Definition directQuery (me other : string) (m : Message) : bool :=
  (bool_decide (senderId m = me) && bool_decide (receiverId m = Some other)
   || bool_decide (senderId m = other) && bool_decide (receiverId m = Some me))
  && bool_decide (groupId m = None).

(** [.populate("receiverId", ...)] leaves [null] where the user document
    does not exist; [m.receiverId._id] then throws. *)
Definition receiverPopulated (s : Store) (m : Message) : bool :=
  match receiverId m with
  | Some r => bool_decide (r ∈ users s)
  | None => false
  end.

(** The filter of lines 49-51: on the page, addressed to the requester
    and still [sent]. *)
Definition undelivered (me : string) (m : Message) : bool :=
  bool_decide (receiverId m = Some me) && bool_decide (status m = sent).

(** [exports.getMessages]: chat.controller.js lines 13-82.  [me] is the
    authenticated user, [other] the [:receiverId] parameter. *)
Definition getMessages (me other : string) (page limit : option Z)
  (o : Settle) (s : Store) : Store * list Emit * Response :=
  let page := orDefault page 1 in
  let limit := orDefault limit 50 in
  let skip := (page - 1) * limit in
  match queryPromise o (directQuery me other) skip limit (messages s) with
  | neverSettles => (s, [], noResponse)
  | rejectedAt _ => (s, [], json500 "Failed to fetch messages")
  | resolvedWith _ total msgs =>
      let reversedMessages := reverse msgs in
      if forallb (receiverPopulated s) reversedMessages
      then
        let undeliveredIds :=
          _id <$> List.filter (undelivered me) reversedMessages in
        let response :=
          json200page reversedMessages
            (mkPagination page (ceilDiv total limit) total
               (bool_decide (skip + Z.of_nat (length reversedMessages) < total))) in
        if decide (0 < length undeliveredIds)%nat
        then
          (withMessages
             (updateMany (λ m, bool_decide (_id m ∈ undeliveredIds)
                               && bool_decide (status m = sent))
                (setStatus delivered) (messages s)) s,
           match truthy (JsMap.get (onlineUsers s) other) with
           | Some senderSocketId => [ioTo senderSocketId (messagesDelivered me)]
           | None => []
           end,
           response)
        else (s, [], response)
      else (s, [], json500 "Failed to fetch messages")
  end.

(** [Promise.race([queryPromise, timeoutPromise])] awaited inside the
    inner [try] of [getGroupMessages]: [None] when the await throws,
    because the query rejected or the timer of [budget] ms fired first
    (a timer that is due fires before a result of the same instant is
    polled). *)
Definition raceTimeout (budget : Z) (p : Settled) : option (Z * list Message) :=
  match p with
  | resolvedWith e total page =>
      if decide (e < budget) then Some (total, page) else None
  | rejectedAt _ => None
  | neverSettles => None
  end.

(** The query of [getGroupMessages]: [{ groupId }]. *)
Definition groupQuery (group : string) (m : Message) : bool :=
  bool_decide (groupId m = Some group).

(** [exports.getGroupMessages]: group.controller.js lines 274-334. *)
Definition getGroupMessages (group : string) (page limit : option Z)
  (o : Settle) (s : Store) : Store * list Emit * Response :=
  let page := orDefault page 1 in
  let limit := orDefault limit 50 in
  let skip := (page - 1) * limit in
  match raceTimeout 3000
          (queryPromise o (groupQuery group) skip limit (messages s)) with
  | Some (total, msgs) =>
      let reversedMessages := reverse msgs in
      (s, [],
       json200page reversedMessages
         (mkPagination page (ceilDiv total limit) total
            (bool_decide (skip + Z.of_nat (length msgs) < total))))
  | None =>
      (s, [], json200page [] (mkPagination page 0 0 false))
  end.

(** ** The system as a state machine *)

Inductive Op : Type :=
| opJoin (socketId uid : string)
| opDisconnect (socketId : string)
| opSendMessage (sender receiver body : string) (now : Z)
| opSendGroupMessage (sender group body : string) (now : Z)
| opMessageDelivered (messageId : nat) (uid : string) (now : Z)
| opMessageRead (messageId : nat) (uid : string) (now : Z)
| opMarkMessagesRead (sender receiver : string)
| opMarkAsRead (sender receiver : string)
| opGetMessages (me other : string) (page limit : option Z) (o : Settle)
| opGetGroupMessages (group : string) (page limit : option Z) (o : Settle)
| opSweep (now : Z).

Definition step (op : Op) (s : Store) : Store :=
  match op with
  | opJoin sock uid => (join sock uid s).1
  | opDisconnect sock => (disconnect sock s).1
  | opSendMessage sender receiver body now =>
      (sendMessage sender receiver body now s).1.1
  | opSendGroupMessage sender group body now =>
      (sendGroupMessage sender group body now s).1.1
  | opMessageDelivered id uid now => (messageDelivered id uid now s).1
  | opMessageRead id uid now => (messageRead id uid now s).1
  | opMarkMessagesRead sender receiver => (markMessagesRead sender receiver s).1
  | opMarkAsRead sender receiver => (markAsRead sender receiver s).1.1
  | opGetMessages me other page limit o =>
      (getMessages me other page limit o s).1.1
  | opGetGroupMessages group page limit o =>
      (getGroupMessages group page limit o s).1.1
  | opSweep now => sweep now s
  end.

(** The operations of a trace applied from left to right. *)
Definition run (ops : list Op) (s : Store) : Store :=
  foldl (λ st op, step op st) s ops.

(** ** Vocabulary of the properties *)

(** [m'] is the document [m] at a later time: the same identity, parties,
    body and creation date, and a status that is not earlier on the line
    sent, delivered, read. *)
Definition laterVersion (m m' : Message) : Prop :=
  _id m' = _id m
  ∧ senderId m' = senderId m
  ∧ receiverId m' = receiverId m
  ∧ groupId m' = groupId m
  ∧ message m' = message m
  ∧ createdAt m' = createdAt m
  ∧ (rank (status m) ≤ rank (status m'))%nat.

(** The collection [ms'] is the collection [ms] at a later time: every
    document of [ms] is still there, at its place, as a later version of
    itself, possibly followed by documents created since. *)
Definition grows (ms ms' : list Message) : Prop :=
  ∃ kept created, ms' = kept ++ created ∧ Forall2 laterVersion ms kept.


(** The storage promise of a history query is still unsettled when the
    3000 ms timer of [getGroupMessages] fires. *)
Definition exceedsBudget (o : Settle) : Prop :=
  match o with
  | fulfilled e => 3000 < e
  | rejected e => 3000 < e
  | pending => True
  end.

(** The empty page of the timeout branch. *)
Definition emptyPage (page : option Z) : Response :=
  json200page [] (mkPagination (orDefault page 1) 0 0 false).

(** ** Sample states *)

(** Alice, bob and carol are online, dave is registered but offline; the
    group ["g1"] has alice and bob as members, carol is not a member. *)
Definition sampleStore : Store :=
  mkStore [("alice", "sock-a"); ("bob", "sock-b"); ("carol", "sock-c")]
          ∅ []
          {[ "g1" := ["alice"; "bob"] ]}
          {[ "alice"; "bob"; "carol"; "dave" ]}.

(** The sample state after alice has sent "hi" to the group: document 0
    is a group message, [delivered], with bob and carol in
    [deliveredTo] and nobody in [readBy]. *)
Definition groupChat : Store :=
  (sendGroupMessage "alice" "g1" "hi" 1000 sampleStore).1.1.

(** The sample state after alice has sent "hi" to bob and bob has
    acknowledged reading it: document 0 is a direct message, [read]. *)
Definition readChat : Store :=
  run [opSendMessage "alice" "bob" "hi" 1000; opMessageRead 0 "bob" 2000]
      sampleStore.

(** The sample state after alice has sent "hi" to dave, who is offline:
    document 0 is a direct message, [sent]. *)
Definition pendingChat : Store :=
  (sendMessage "alice" "dave" "hi" 1000 sampleStore).1.1.

(** ** Socket relays ([socket.js]) *)

(** [socket.on("sendMessage")], lines 29-34, and [socket.on("typing")],
    lines 50-55: the payload goes to the receiver's socket if there is
    one.  The result lists the sockets written to, with what is sent. *)
Definition socketSendMessage {D : Type} (reg : JsMap.t string)
  (receiver : string) (data : D) : list (string * D) :=
  match truthy (JsMap.get reg receiver) with
  | Some receiverSocket => [(receiverSocket, data)]
  | None => []
  end.

(** [socket.on("sendGroupMessage")], lines 37-47.  [groupMembers] is
    [None] when [data.groupMembers] is missing or not an array; a member
    is written to when it has a socket other than the emitting one. *)
Definition socketSendGroupMessage {D : Type} (reg : JsMap.t string)
  (socketId : string) (groupMembers : option (list string)) (data : D)
  : list (string * D) :=
  match groupMembers with
  | Some memberIds =>
      omap (λ memberId,
              match truthy (JsMap.get reg memberId) with
              | Some memberSocket =>
                  if decide (memberSocket ≠ socketId)
                  then Some (memberSocket, data) else None
              | None => None
              end)
           memberIds
  | None => []
  end.

(** ** Group administration ([group.controller.js]) *)

(** The fields of a Group document the controller reads and writes. *)
Record Group : Type := mkGroup {
  name : string;
  description : string;
  members : list string;
  admins : list string;
  createdBy : string
}.

#[global] Instance Group_eq_dec : EqDecision Group.
Proof. solve_decision. Defined.

Inductive GroupEvent : Type :=
| newGroup (g : Group)
| groupUpdated (g : Group)
| removedFromGroup (groupId : string).

Inductive GroupResponse : Type :=
| group201 (g : Group)
| group200 (g : Group)
| groupText (code : nat) (text : string).

(** [[...new Set(l)]]: each value once, at the place of its first
    occurrence. *)
Fixpoint newSet (l : list string) : list string :=
  match l with
  | [] => []
  | x :: l' => x :: filter (λ y, y ≠ x) (newSet l')
  end.

(** The loops [members.forEach(memberId => { const s =
    onlineUsersMap.get(memberId); if (s && ioInstance) io.to(s).emit(...) })]
    of the controller: one event per member that has a socket. *)
Definition emitToMembers (reg : JsMap.t string) (memberIds : list string)
  (ev : GroupEvent) : list (string * GroupEvent) :=
  omap (λ memberId, (λ sock, (sock, ev)) <$> truthy (JsMap.get reg memberId))
       memberIds.

(** [exports.createGroup]: lines 188-226.  [gid] is the [_id] the storage
    gives the new document; [membersField] is [None] when the body has no
    [members]; a missing [description] is the empty string. *)
Definition createGroup (reg : JsMap.t string) (creatorId gid : string)
  (groupName groupDescription : string) (membersField : option (list string))
  (coll : gmap string Group)
  : gmap string Group * list (string * GroupEvent) * GroupResponse :=
  match membersField with
  | Some (first :: others) =>
      if decide (groupName = "")
      then (coll, [], groupText 400 "Group name and members are required")
      else
        let allMembers := newSet (creatorId :: first :: others) in
        let group :=
          mkGroup groupName groupDescription allMembers [creatorId] creatorId in
        (<[gid := group]> coll,
         emitToMembers reg allMembers (newGroup group),
         group201 group)
  | _ => (coll, [], groupText 400 "Group name and members are required")
  end.

(** The loop of [addMembers], lines 468-472: a member is pushed unless the
    list, as grown so far, already holds it. *)
Definition pushMissing (current : list string) (requested : list string)
  : list string :=
  foldl (λ acc memberId,
           if decide (memberId ∈ acc) then acc else acc ++ [memberId])
        current requested.

(** [exports.addMembers]: lines 452-493. *)
Definition addMembers (reg : JsMap.t string) (user gid : string)
  (requested : list string) (coll : gmap string Group)
  : gmap string Group * list (string * GroupEvent) * GroupResponse :=
  match coll !! gid with
  | None => (coll, [], groupText 404 "Group not found")
  | Some group =>
      if decide (user ∈ admins group)
      then
        let group' :=
          mkGroup (name group) (description group)
                  (pushMissing (members group) requested)
                  (admins group) (createdBy group) in
        (<[gid := group']> coll,
         emitToMembers reg (members group') (groupUpdated group'),
         group200 group')
      else (coll, [], groupText 403 "Only admins can add members")
  end.

(** [exports.removeMember]: lines 496-543. *)
Definition removeMember (reg : JsMap.t string) (user gid memberId : string)
  (coll : gmap string Group)
  : gmap string Group * list (string * GroupEvent) * GroupResponse :=
  match coll !! gid with
  | None => (coll, [], groupText 404 "Group not found")
  | Some group =>
      if decide (user ∈ admins group)
      then
        if decide (createdBy group = memberId)
        then (coll, [], groupText 400 "Cannot remove group creator")
        else
          let group' :=
            mkGroup (name group) (description group)
                    (filter (λ m, m ≠ memberId) (members group))
                    (filter (λ a, a ≠ memberId) (admins group))
                    (createdBy group) in
          (<[gid := group']> coll,
           emitToMembers reg (members group') (groupUpdated group')
           ++ match truthy (JsMap.get reg memberId) with
              | Some removedSocket => [(removedSocket, removedFromGroup gid)]
              | None => []
              end,
           group200 group')
      else (coll, [], groupText 403 "Only admins can remove members")
  end.

(** [exports.updateGroup]: lines 546-583.  An empty [newName] is a missing
    or empty [name]; [newDescription] is [None] when the body has no
    [description]. *)
Definition updateGroup (reg : JsMap.t string) (user gid : string)
  (newName : string) (newDescription : option string)
  (coll : gmap string Group)
  : gmap string Group * list (string * GroupEvent) * GroupResponse :=
  match coll !! gid with
  | None => (coll, [], groupText 404 "Group not found")
  | Some group =>
      if decide (user ∈ admins group)
      then
        let group' :=
          mkGroup (if decide (newName = "") then name group else newName)
                  (default (description group) newDescription)
                  (members group) (admins group) (createdBy group) in
        (<[gid := group']> coll,
         emitToMembers reg (members group') (groupUpdated group'),
         group200 group')
      else (coll, [], groupText 403 "Only admins can update group")
  end.

(** [exports.leaveGroup]: lines 586-622. *)
Definition leaveGroup (reg : JsMap.t string) (user gid : string)
  (coll : gmap string Group)
  : gmap string Group * list (string * GroupEvent) * GroupResponse :=
  match coll !! gid with
  | None => (coll, [], groupText 404 "Group not found")
  | Some group =>
      if decide (createdBy group = user)
      then (coll, [],
            groupText 400 "Creator cannot leave group. Transfer ownership first.")
      else
        let group' :=
          mkGroup (name group) (description group)
                  (filter (λ m, m ≠ user) (members group))
                  (filter (λ a, a ≠ user) (admins group))
                  (createdBy group) in
        (<[gid := group']> coll,
         emitToMembers reg (members group') (groupUpdated group'),
         groupText 200 "Left group successfully")
  end.

(** [exports.getGroupDetails]: lines 247-271.  The user documents of the
    members are taken to exist, so that [populate] keeps every member. *)
Definition getGroupDetails (user gid : string) (coll : gmap string Group)
  : GroupResponse :=
  match coll !! gid with
  | None => groupText 404 "Group not found"
  | Some group =>
      if decide (user ∈ members group) then group200 group
      else groupText 403 "You are not a member of this group"
  end.

(** The requests that write the Group collection. *)
Inductive GroupOp : Type :=
| gCreate (creatorId gid groupName groupDescription : string)
          (membersField : option (list string))
| gAddMembers (user gid : string) (requested : list string)
| gRemoveMember (user gid memberId : string)
| gUpdate (user gid newName : string) (newDescription : option string)
| gLeave (user gid : string).

Definition groupStep (reg : JsMap.t string) (op : GroupOp)
  (coll : gmap string Group) : gmap string Group :=
  match op with
  | gCreate creatorId gid groupName groupDescription membersField =>
      (createGroup reg creatorId gid groupName groupDescription membersField
         coll).1.1
  | gAddMembers user gid requested => (addMembers reg user gid requested coll).1.1
  | gRemoveMember user gid memberId =>
      (removeMember reg user gid memberId coll).1.1
  | gUpdate user gid newName newDescription =>
      (updateGroup reg user gid newName newDescription coll).1.1
  | gLeave user gid => (leaveGroup reg user gid coll).1.1
  end.

Definition groupRun (reg : JsMap.t string) (ops : list GroupOp)
  (coll : gmap string Group) : gmap string Group :=
  foldl (λ c op, groupStep reg op c) coll ops.

(** ** Vocabulary of the further properties *)

(** A group document as the controller keeps it: no member twice, the
    creator a member, and the creator the one and only admin. *)
Definition groupSound (g : Group) : Prop :=
  NoDup (members g) ∧ createdBy g ∈ members g ∧ admins g = [createdBy g].

(** The string holds no colon (character 58), as is the case of the
    hexadecimal ids the storage gives to users and groups. *)
Fixpoint colonFree (s : string) : bool :=
  match s with
  | EmptyString => true
  | String c rest => negb (Ascii.eqb c (Ascii.ascii_of_nat 58)) && colonFree rest
  end.

(** ** The acknowledgment handlers, split at their await *)

Inductive AckKind : Type := ackDelivered | ackRead.

(** The write a delivery acknowledgment issues after
    [await Message.findById(messageId)] (socket.js 69-82): which write,
    and with which status, is decided on the document [m] that was read
    before the await; [findByIdAndUpdate] carries no condition on the
    status or on [deliveredTo], so the write applies to the collection
    [ms] as it is when it lands. *)
Definition deliveredWrite (m : Message) (messageId : nat) (uid : string)
  (now : Z) (ms : list Message) : list Message :=
  match groupId m with
  | Some _ =>
      if existsb (λ d, bool_decide (userId d = uid)) (deliveredTo m)
      then ms
      else findByIdAndUpdate messageId
             (λ doc, setStatus
                       (if decide (status m = sent) then delivered
                        else status m)
                       (pushDeliveredTo (mkReceipt uid now) doc))
             ms
  | None =>
      if decide (status m = sent)
      then findByIdAndUpdate messageId (setStatus delivered) ms
      else ms
  end.

(** The write a read acknowledgment issues after its await (socket.js
    106-116). *)
Definition readWrite (m : Message) (messageId : nat) (uid : string)
  (now : Z) (ms : list Message) : list Message :=
  match groupId m with
  | Some _ =>
      if existsb (λ r, bool_decide (userId r = uid)) (readBy m)
      then ms
      else findByIdAndUpdate messageId (pushReadBy (mkReceipt uid now)) ms
  | None => findByIdAndUpdate messageId (setStatus read) ms
  end.

(** An acknowledgment handler suspended at its await: the event it
    handles and what [findById] returned. *)
Record Suspended : Type := mkSuspended {
  ackKind : AckKind;
  ackMessageId : nat;
  ackUserId : string;
  ackSnapshot : option Message
}.

(** The handler runs up to its await, on the state [s]. *)
Definition suspend (kind : AckKind) (messageId : nat) (uid : string)
  (s : Store) : Suspended :=
  mkSuspended kind messageId uid (findById (messages s) messageId).

(** The handler resumes, at time [now], on the state [s] the other
    handlers have left: its write lands and the sender is notified. *)
Definition resume (h : Suspended) (now : Z) (s : Store) : Store * list Emit :=
  match ackSnapshot h with
  | None => (s, [])
  | Some m =>
      match ackKind h with
      | ackDelivered =>
          (withMessages
             (deliveredWrite m (ackMessageId h) (ackUserId h) now (messages s)) s,
           notifySender s m (ackMessageId h) delivered)
      | ackRead =>
          (withMessages
             (readWrite m (ackMessageId h) (ackUserId h) now (messages s)) s,
           notifySender s m (ackMessageId h) read)
      end
  end.

(** ** The writes of the socket handlers to the User collection *)

(** [User.findByIdAndUpdate(userId, { isOnline: true, lastSeen })] of the
    join handler, socket.js 16-21: the user written and the value of
    [isOnline]. *)
Definition joinUserWrite (uid : string) : string * bool := (uid, true).

(** [User.findByIdAndUpdate(disconnectedUserId, { isOnline: false,
    lastSeen })] of the disconnect handler, socket.js 170-177: made when
    the loop found a key and that key is truthy. *)
Definition disconnectUserWrite (socketId : string) (s : Store)
  : option (string * bool) :=
  match truthy (disconnectedUserId (onlineUsers s) socketId) with
  | Some key => Some (key, false)
  | None => None
  end.

(** * Properties *)

(** ** The insertion-ordered map *)

Module JsMapFacts.

Lemma get_delete_ne {V} (m : JsMap.t V) (k k' : string) :
  k ≠ k' → JsMap.get (JsMap.delete m k) k' = JsMap.get m k'.
Proof.
  intros Hne. induction m as [|[k0 v0] m IH]; simpl; [done|].
  destruct (decide (k0 = k)) as [->|Hk].
  - destruct (decide (k = k')); [done|reflexivity].
  - simpl. destruct (decide (k0 = k')); [reflexivity|exact IH].
Qed.

Lemma get_Some_elem {V} (m : JsMap.t V) (k : string) (v : V) :
  JsMap.get m k = Some v → (k, v) ∈ m.
Proof.
  induction m as [|[k0 v0] m IH]; simpl; [done|].
  destruct (decide (k0 = k)) as [->|Hk].
  - intros [= ->]. left.
  - intros H. right. auto.
Qed.

Lemma elem_get {V} (m : JsMap.t V) (k : string) (v : V) :
  JsMap.wf m → (k, v) ∈ m → JsMap.get m k = Some v.
Proof.
  unfold JsMap.wf, JsMap.keys.
  induction m as [|[k0 v0] m IH]; simpl; intros Hwf Hin.
  - by apply elem_of_nil in Hin.
  - apply NoDup_cons in Hwf as [Hnotin Hwf].
    apply elem_of_cons in Hin as [[= -> ->]|Hin].
    + by rewrite decide_True.
    + destruct (decide (k0 = k)) as [->|Hk]; [|auto].
      exfalso. apply Hnotin. apply list_elem_of_fmap. by exists (k, v).
Qed.

Lemma wf_set {V} (m : JsMap.t V) (k : string) (v : V) :
  JsMap.wf m → JsMap.wf (JsMap.set m k v).
Proof.
  unfold JsMap.wf, JsMap.keys.
  assert (Hkeys : ∀ (m : JsMap.t V) x,
             x ∈ (JsMap.set m k v).*1 → x = k ∨ x ∈ m.*1).
  { clear m. induction m as [|[k0 v0] m IH]; simpl; intros x Hx.
    - apply list_elem_of_singleton in Hx. by left.
    - destruct (decide (k0 = k)); simpl in Hx; [by right|].
      apply elem_of_cons in Hx as [->|Hx]; [right; left|].
      destruct (IH _ Hx) as [->|?]; [by left|right; by right]. }
  induction m as [|[k0 v0] m IH]; simpl; intros Hwf.
  - apply NoDup_singleton.
  - apply NoDup_cons in Hwf as [Hnotin Hwf].
    destruct (decide (k0 = k)) as [->|Hk]; simpl.
    + by apply NoDup_cons.
    + apply NoDup_cons. split; [|auto].
      intros Hin. destruct (Hkeys _ _ Hin) as [->|?]; done.
Qed.

Lemma wf_delete {V} (m : JsMap.t V) (k : string) :
  JsMap.wf m → JsMap.wf (JsMap.delete m k).
Proof.
  unfold JsMap.wf, JsMap.keys.
  assert (Hkeys : ∀ (m : JsMap.t V) x, x ∈ (JsMap.delete m k).*1 → x ∈ m.*1).
  { clear m. induction m as [|[k0 v0] m IH]; simpl; intros x Hx; [done|].
    destruct (decide (k0 = k)); simpl in Hx; [by right|].
    apply elem_of_cons in Hx as [->|Hx]; [left|right; auto]. }
  induction m as [|[k0 v0] m IH]; simpl; intros Hwf; [done|].
  apply NoDup_cons in Hwf as [Hnotin Hwf].
  destruct (decide (k0 = k)); simpl; [done|].
  apply NoDup_cons. split; [|auto]. intros Hin. apply Hnotin. eauto.
Qed.

Lemma elem_keys_get {V} (m : JsMap.t V) (k : string) :
  k ∈ JsMap.keys m ↔ is_Some (JsMap.get m k).
Proof.
  unfold JsMap.keys. induction m as [|[k0 v0] m IH]; simpl.
  - split; [by intros ?%elem_of_nil|by intros [? ?]].
  - rewrite elem_of_cons. destruct (decide (k0 = k)) as [->|Hk].
    + split; [eauto|by left].
    + rewrite IH. split; [intros [?|?]; [congruence|done]|by right].
Qed.

End JsMapFacts.

(** ** PresenceRegistry *)

(** When the loop finds nothing, no entry carries the handle. *)
Lemma disconnectedUserId_None (reg : JsMap.t string) (socketId : string) :
  disconnectedUserId reg socketId = None ↔ ∀ e, e ∈ reg → e.2 ≠ socketId.
Proof.
  induction reg as [|[k v] reg IH]; simpl.
  - split; [|done]. intros _ e He. by apply elem_of_nil in He.
  - destruct (decide (v = socketId)) as [->|Hv].
    + split; [done|]. intros H. exfalso. apply (H (k, socketId)); [left|done].
    + rewrite IH. split.
      * intros H e He. apply elem_of_cons in He as [->|He]; [done|auto].
      * intros H e He. apply H. by right.
Qed.

(** When the loop finds a key, deleting that key removes exactly the entry
    the loop stopped at. *)
Lemma disconnectedUserId_Some (reg : JsMap.t string) (socketId key : string) :
  JsMap.wf reg →
  disconnectedUserId reg socketId = Some key →
  ∃ before after,
    reg = before ++ (key, socketId) :: after
    ∧ JsMap.delete reg key = before ++ after
    ∧ ∀ e, e ∈ before → e.2 ≠ socketId.
Proof.
  unfold JsMap.wf, JsMap.keys.
  induction reg as [|[k v] reg IH]; simpl; intros Hwf Hfound; [done|].
  apply NoDup_cons in Hwf as [Hnotin Hwf].
  destruct (decide (v = socketId)) as [->|Hv].
  - injection Hfound as ->. exists [], reg. rewrite decide_True by done.
    split_and!; [done|done|]. intros e He. by apply elem_of_nil in He.
  - destruct (IH Hwf Hfound) as (before & after & -> & Hdel & Hbefore).
    exists ((k, v) :: before), after.
    destruct (decide (k = key)) as [->|Hk].
    + exfalso. apply Hnotin. rewrite fmap_app. apply elem_of_app. right. left.
    + split_and!; [done|by rewrite Hdel|].
      intros e He. apply elem_of_cons in He as [->|He]; [done|auto].
Qed.

Lemma withOnlineUsers_same (s : Store) : withOnlineUsers (onlineUsers s) s = s.
Proof. by destruct s. Qed.

(** C9.  On a disconnect the registry loses at most one entry, and that
    entry carries the disconnecting handle: the registry before is
    [before ++ removed ++ after] with [removed] of length at most one and
    made of entries whose handle is the socket's id, and the registry
    after is [before ++ after].  The entry of every user who is not
    registered under that handle reads as before; if no entry carries the
    handle the whole state is unchanged; the Message collection and the
    suppression cache are never touched.  The only output is the roster
    broadcast, sent in every case. *)
Theorem disconnect_removes_at_most_the_matching_entry
  (s : Store) (socketId : string) :
  JsMap.wf (onlineUsers s) →
  let s' := (disconnect socketId s).1 in
  (∃ before removed after,
      onlineUsers s = before ++ removed ++ after
      ∧ onlineUsers s' = before ++ after
      ∧ (length removed ≤ 1)%nat
      ∧ ∀ e, e ∈ removed → e.2 = socketId)
  ∧ (∀ uid, JsMap.get (onlineUsers s) uid ≠ Some socketId →
            JsMap.get (onlineUsers s') uid = JsMap.get (onlineUsers s) uid)
  ∧ ((∀ e, e ∈ onlineUsers s → e.2 ≠ socketId) → s' = s)
  ∧ messages s' = messages s
  ∧ messageCache s' = messageCache s
  ∧ (disconnect socketId s).2
    = [ioEmit (onlineUsersEvent (JsMap.keys (onlineUsers s')))].
Proof.
  intros Hwf. unfold disconnect. simpl.
  destruct (disconnectedUserId (onlineUsers s) socketId) as [key|] eqn:Hloop.
  - destruct (disconnectedUserId_Some _ _ _ Hwf Hloop)
      as (before & after & Hreg & Hdel & Hbefore).
    split_and!; try done.
    + exists before, [(key, socketId)], after. split_and!; try done.
      intros e He. apply list_elem_of_singleton in He. by subst.
    + intros uid Huid. apply JsMapFacts.get_delete_ne. intros <-.
      apply Huid. apply JsMapFacts.elem_get; [done|].
      rewrite Hreg. apply elem_of_app. right. left.
    + intros Hnone. exfalso.
      apply (Hnone (key, socketId)); [|done].
      rewrite Hreg. apply elem_of_app. right. left.
  - split_and!; try done.
    + exists (onlineUsers s), [], []. rewrite !app_nil_r.
      split_and!; try done; [simpl; lia|..].
      intros e He. by apply elem_of_nil in He.
    + intros _. apply withOnlineUsers_same.
Qed.

Lemma disconnect_removes_at_most_the_matching_entry_witness :
  JsMap.wf (onlineUsers sampleStore)
  ∧ JsMap.get (onlineUsers (disconnect "sock-b" sampleStore).1) "carol"
    = JsMap.get (onlineUsers sampleStore) "carol".
Proof.
  assert (Hwf : JsMap.wf (onlineUsers sampleStore)) by compute_done.
  split; [exact Hwf|].
  apply (disconnect_removes_at_most_the_matching_entry sampleStore "sock-b" Hwf).
  vm_compute. discriminate.
Defined.

(** ** DuplicateSuppressor *)

(** The check answers "duplicate" exactly when the cache holds a truthy
    timestamp for the key that is less than 3000 ms old. *)
Lemma shouldSuppress_true (key : string) (now : Z) (cache : gmap string Z) :
  (shouldSuppress key now cache).1 = true
  ↔ ∃ lastRequest,
      cache !! key = Some lastRequest
      ∧ lastRequest ≠ 0 ∧ now - lastRequest < 3000.
Proof.
  unfold shouldSuppress.
  destruct (cache !! key) as [lastRequest|]; [|split; [done|by intros (?&?&?)]].
  destruct (decide _) as [Hd|Hd]; simpl.
  - split; [eauto|done].
  - split; [done|]. intros (t & [= <-] & ?). by destruct Hd.
Qed.

(** C8, as the code has it.  The duplicate check writes the current time
    under the key only when it answers [false] (the send is allowed); when
    it answers [true] (the send is suppressed) the cache is left exactly
    as it was, so the key still maps to the older timestamp. *)
Theorem shouldSuppress_refreshes_only_when_allowed
  (key : string) (now : Z) (cache : gmap string Z) :
  ((shouldSuppress key now cache).1 = false ∧
   (shouldSuppress key now cache).2 = <[key := now]> cache ∧
   (shouldSuppress key now cache).2 !! key = Some now)
  ∨
  ((shouldSuppress key now cache).1 = true ∧
   (shouldSuppress key now cache).2 = cache ∧
   ∃ lastRequest,
     cache !! key = Some lastRequest
     ∧ lastRequest ≠ 0 ∧ now - lastRequest < 3000).
Proof.
  unfold shouldSuppress.
  destruct (cache !! key) as [lastRequest|] eqn:Hget.
  - destruct (decide _) as [[H0 Hlt]|Hd]; simpl.
    + right. split_and!; [done|done|]. by exists lastRequest.
    + left. split_and!; [done|done|]. apply lookup_insert_eq.
  - left. simpl. split_and!; [done|done|]. apply lookup_insert_eq.
Qed.

(** C8, counterexample to the claim as stated: a call made 1000 ms after
    the key was recorded answers [true] and the key still maps to the old
    time 1000, not to the current time 2000. *)
Lemma shouldSuppress_suppressed_keeps_old_timestamp :
  let key := cacheKey "alice" "g1" "hi" in
  let cache : gmap string Z := {[ key := 1000 ]} in
  (shouldSuppress key 2000 cache).1 = true
  ∧ (shouldSuppress key 2000 cache).2 !! key = Some 1000
  ∧ (shouldSuppress key 2000 cache).2 !! key ≠ Some 2000.
Proof. vm_compute. split_and!; [reflexivity|reflexivity|discriminate]. Qed.

Lemma shouldSuppress_false_cache (key : string) (now : Z) (cache : gmap string Z) :
  (shouldSuppress key now cache).1 = false →
  (shouldSuppress key now cache).2 = <[key := now]> cache.
Proof.
  unfold shouldSuppress. destruct (cache !! key); [|done].
  by destruct (decide _).
Qed.

(** ** DeliveryRouter *)

(** What an accepted group send (answered 201) has done. *)
Lemma sendGroupMessage_accepted
  (sender group body : string) (now : Z) (s : Store) (m : Message) :
  (sendGroupMessage sender group body now s).2 = json201 m →
  group ≠ "" ∧ body ≠ ""
  ∧ (shouldSuppress (cacheKey sender group body) now (messageCache s)).1 = false
  ∧ m = groupDocument sender group body now s
  ∧ (sendGroupMessage sender group body now s).1.1
    = withMessages (messages s ++ [m])
        (withMessageCache
           (<[cacheKey sender group body := now]> (messageCache s)) s).
Proof.
  unfold sendGroupMessage.
  destruct (decide (group = "" ∨ body = "")) as [Hbad|Hok]; [done|].
  pose proof (shouldSuppress_false_cache
                (cacheKey sender group body) now (messageCache s)) as Hcache.
  destruct (shouldSuppress _ now (messageCache s)) as [dup cache].
  destruct dup; [done|]. simpl in *. intros [= <-].
  rewrite Hcache by done. split_and!; try done; naive_solver.
Qed.

(** A group send whose key was recorded less than 3000 ms ago, at a
    non-zero time, is answered 200 and changes nothing. *)
Lemma sendGroupMessage_duplicate
  (sender group body : string) (now last : Z) (s : Store) :
  group ≠ "" → body ≠ "" →
  messageCache s !! cacheKey sender group body = Some last →
  last ≠ 0 → now - last < 3000 →
  sendGroupMessage sender group body now s
  = (s, [], json200 "Duplicate request ignored").
Proof.
  intros Hg Hb Hget H0 Hlt. unfold sendGroupMessage.
  rewrite decide_False by (intros [?|?]; done).
  unfold shouldSuppress. rewrite Hget.
  by rewrite decide_True.
Qed.

(** A well-formed group send whose key was recorded at least 3000 ms ago
    is answered 201 and appends its document. *)
Lemma sendGroupMessage_after_window
  (sender group body : string) (now last : Z) (s : Store) :
  group ≠ "" → body ≠ "" →
  messageCache s !! cacheKey sender group body = Some last →
  3000 ≤ now - last →
  (sendGroupMessage sender group body now s).2
  = json201 (groupDocument sender group body now s)
  ∧ messages (sendGroupMessage sender group body now s).1.1
    = messages s ++ [groupDocument sender group body now s].
Proof.
  intros Hg Hb Hget Hge. unfold sendGroupMessage.
  rewrite decide_False by (intros [?|?]; done).
  unfold shouldSuppress. rewrite Hget.
  rewrite decide_False by lia. done.
Qed.

(** C2, as the code has it: suppression exists on the group path.  Take a
    group send that is accepted (answered 201) at a non-zero clock reading
    [t1], followed by a second send with the same sender, group and body
    at [t2].  If [t2 - t1 < 3000] the second send is answered 200
    "Duplicate request ignored", emits nothing and leaves the whole state
    as the first send left it, so exactly one message was persisted.  If
    [t2 - t1 >= 3000] the second send is answered 201 and its document is
    appended, so two messages were persisted. *)
Theorem group_send_duplicate_suppression
  (s : Store) (sender group body : string) (t1 t2 : Z) (m1 : Message) :
  (sendGroupMessage sender group body t1 s).2 = json201 m1 →
  t1 ≠ 0 →
  let s1 := (sendGroupMessage sender group body t1 s).1.1 in
  let r2 := sendGroupMessage sender group body t2 s1 in
  messages s1 = messages s ++ [m1]
  ∧ (t2 - t1 < 3000 →
     r2 = (s1, [], json200 "Duplicate request ignored")
     ∧ length (messages r2.1.1) = S (length (messages s)))
  ∧ (3000 ≤ t2 - t1 →
     ∃ m2, r2.2 = json201 m2
           ∧ messages r2.1.1 = messages s ++ [m1; m2]
           ∧ length (messages r2.1.1) = S (S (length (messages s)))).
Proof.
  intros Hfirst Ht1.
  destruct (sendGroupMessage_accepted _ _ _ _ _ _ Hfirst)
    as (Hg & Hb & _ & _ & Hs1).
  simpl. rewrite Hs1.
  set (s1 := withMessages _ _).
  assert (Hget : messageCache s1 !! cacheKey sender group body = Some t1)
    by apply lookup_insert_eq.
  split_and!; [done| |].
  - intros Hlt.
    rewrite (sendGroupMessage_duplicate _ _ _ _ _ _ Hg Hb Hget Ht1 Hlt).
    split; [done|]. simpl. rewrite length_app. simpl. lia.
  - intros Hge.
    destruct (sendGroupMessage_after_window _ _ _ _ _ _ Hg Hb Hget Hge)
      as [Hresp Hmsgs].
    eexists. split_and!; [exact Hresp| |].
    + rewrite Hmsgs. simpl. by rewrite <- app_assoc.
    + rewrite Hmsgs. simpl. rewrite !length_app. simpl. lia.
Qed.

Lemma group_send_duplicate_suppression_witness :
  (sendGroupMessage "alice" "g1" "hi" 1000 sampleStore).2
  = json201 (groupDocument "alice" "g1" "hi" 1000 sampleStore)
  ∧ (1000 : Z) ≠ 0
  ∧ length (messages
              (sendGroupMessage "alice" "g1" "hi" 2500
                 (sendGroupMessage "alice" "g1" "hi" 1000 sampleStore).1.1).1.1)
    = 1%nat.
Proof.
  assert (H1 : (sendGroupMessage "alice" "g1" "hi" 1000 sampleStore).2
               = json201 (groupDocument "alice" "g1" "hi" 1000 sampleStore))
    by (vm_compute; reflexivity).
  assert (H0 : (1000 : Z) ≠ 0) by lia.
  split_and!; [exact H1|exact H0|].
  apply (group_send_duplicate_suppression
           sampleStore "alice" "g1" "hi" 1000 2500 _ H1 H0).
  lia.
Defined.

(** A well-formed direct send always creates a document: the direct path
    consults no cache and no clock. *)
Lemma sendMessage_always_persists
  (sender receiver body : string) (now : Z) (s : Store) :
  receiver ≠ "" → body ≠ "" →
  ∃ m, (sendMessage sender receiver body now s).2 = json201 m
       ∧ messages (sendMessage sender receiver body now s).1.1
         = messages s ++ [m].
Proof.
  intros Hr Hb. unfold sendMessage.
  rewrite decide_False by (intros [?|?]; done). simpl. eauto.
Qed.

(** C2, counterexample to the claim as stated: two identical direct sends
    issued at the same instant are both answered 201 and persist two
    messages, not one. *)
Lemma direct_sends_are_not_suppressed :
  let r1 := sendMessage "alice" "bob" "hi" 1000 sampleStore in
  let r2 := sendMessage "alice" "bob" "hi" 1000 r1.1.1 in
  (∃ m2, r2.2 = json201 m2)
  ∧ length (messages r2.1.1) = 2%nat
  ∧ length (messages r2.1.1) ≠ 1%nat.
Proof.
  vm_compute. split_and!; [eauto|reflexivity|discriminate].
Qed.

Lemma onlineOthers_userIds (reg : JsMap.t string) (sender : string) (now : Z) :
  userId <$> onlineOthers reg sender now
  = filter (λ uid, uid ≠ sender) (JsMap.keys reg).
Proof.
  unfold onlineOthers. rewrite <- list_fmap_compose.
  rewrite <- (list_fmap_id (filter _ _)) at 2.
  by apply list_fmap_ext.
Qed.

(** C3, as the code has it.  An accepted group send persists one new
    document whose [deliveredTo] lists, in registry order and once each,
    exactly the users that are in the presence registry and are not the
    sender; group membership is not consulted.  Its status is [delivered]
    when that list is non-empty and [sent] when it is empty. *)
Theorem group_send_marks_every_online_user
  (sender group body : string) (now : Z) (s : Store) (m : Message) :
  JsMap.wf (onlineUsers s) →
  (sendGroupMessage sender group body now s).2 = json201 m →
  messages (sendGroupMessage sender group body now s).1.1 = messages s ++ [m]
  ∧ userId <$> deliveredTo m
    = filter (λ uid, uid ≠ sender) (JsMap.keys (onlineUsers s))
  ∧ (∀ uid, uid ∈ userId <$> deliveredTo m
            ↔ uid ≠ sender ∧ is_Some (JsMap.get (onlineUsers s) uid))
  ∧ NoDup (userId <$> deliveredTo m)
  ∧ status m = (if decide (deliveredTo m = []) then sent else delivered).
Proof.
  intros Hwf Hresp.
  destruct (sendGroupMessage_accepted _ _ _ _ _ _ Hresp)
    as (_ & _ & _ & Hm & Hs1).
  rewrite Hs1. subst m. unfold groupDocument. simpl.
  rewrite onlineOthers_userIds.
  split_and!; [done|done| | |].
  - intros uid. rewrite list_elem_of_filter.
    rewrite JsMapFacts.elem_keys_get. done.
  - by apply NoDup_filter.
  - by destruct (onlineOthers (onlineUsers s) sender now).
Qed.

Lemma group_send_marks_every_online_user_witness :
  JsMap.wf (onlineUsers sampleStore)
  ∧ (sendGroupMessage "alice" "g1" "hi" 1000 sampleStore).2
    = json201 (groupDocument "alice" "g1" "hi" 1000 sampleStore)
  ∧ NoDup (userId <$> deliveredTo (groupDocument "alice" "g1" "hi" 1000 sampleStore)).
Proof.
  assert (Hwf : JsMap.wf (onlineUsers sampleStore)) by compute_done.
  assert (H1 : (sendGroupMessage "alice" "g1" "hi" 1000 sampleStore).2
               = json201 (groupDocument "alice" "g1" "hi" 1000 sampleStore))
    by (vm_compute; reflexivity).
  split_and!; [exact Hwf|exact H1|].
  apply (group_send_marks_every_online_user
           "alice" "g1" "hi" 1000 sampleStore _ Hwf H1).
Defined.

(** C3, counterexample to the claim as stated: alice sends to the group
    ["g1"], whose members are alice and bob, while alice, bob and carol are
    online.  The created document's [deliveredTo] holds bob and carol,
    although carol is not a member of the group. *)
Lemma group_send_marks_a_non_member :
  (sendGroupMessage "alice" "g1" "hi" 1000 sampleStore).2
  = json201 (mkMessage 0 "alice" None (Some "g1") "hi" delivered
               [mkReceipt "bob" 1000; mkReceipt "carol" 1000] [] 1000)
  ∧ groups sampleStore !! "g1" = Some ["alice"; "bob"]
  ∧ "carol" ∉ ["alice"; "bob"].
Proof.
  split_and!; [vm_compute; reflexivity|vm_compute; reflexivity|].
  intros Hin. apply list_elem_of_In in Hin. simpl in Hin.
  by destruct Hin as [?|[?|[]]].
Qed.

(** ** The Message collection *)

Section Collection.

Context (R : Message → Message → Prop).
Hypothesis R_refl : ∀ m, R m m.

Lemma Forall2_R_refl (ms : list Message) : Forall2 R ms ms.
Proof. induction ms; constructor; auto. Qed.

(** Updating the document found by id relates the collections pointwise
    as soon as it relates that document to its update. *)
Lemma findByIdAndUpdate_Forall2 (id : nat) (update : Message → Message)
  (ms : list Message) (m : Message) :
  findById ms id = Some m →
  R m (update m) →
  Forall2 R ms (findByIdAndUpdate id update ms).
Proof.
  unfold findById. induction ms as [|x ms IH]; simpl; [done|].
  destruct (decide (_id x = id)) as [Hx|Hx].
  - rewrite bool_decide_eq_true_2 by done. intros [= ->] Hm.
    constructor; [done|apply Forall2_R_refl].
  - rewrite bool_decide_eq_false_2 by done. intros Hf Hm.
    constructor; auto.
Qed.

Lemma updateMany_Forall2 (query : Message → bool) (update : Message → Message)
  (ms : list Message) :
  (∀ m, query m = true → R m (update m)) →
  Forall2 R ms (updateMany query update ms).
Proof.
  intros Hq. unfold updateMany.
  induction ms as [|x ms IH]; simpl; constructor; [|done].
  destruct (query x) eqn:E; auto.
Qed.

End Collection.

Lemma findById_update_same (id : nat) (update : Message → Message)
  (ms : list Message) :
  (∀ m, _id (update m) = _id m) →
  findById (findByIdAndUpdate id update ms) id = update <$> findById ms id.
Proof.
  intros Hid. unfold findById. induction ms as [|x ms IH]; simpl; [done|].
  destruct (decide (_id x = id)) as [Hx|Hx]; simpl.
  - rewrite !bool_decide_eq_true_2; [done|done|by rewrite Hid].
  - by rewrite !bool_decide_eq_false_2.
Qed.

Lemma laterVersion_refl (m : Message) : laterVersion m m.
Proof. by repeat split. Qed.

Lemma laterVersion_trans (m1 m2 m3 : Message) :
  laterVersion m1 m2 → laterVersion m2 m3 → laterVersion m1 m3.
Proof.
  unfold laterVersion. intros (?&?&?&?&?&?&?) (?&?&?&?&?&?&?).
  split_and!; try congruence. lia.
Qed.

Lemma laterVersion_setStatus (st : Status) (m : Message) :
  (rank (status m) ≤ rank st)%nat → laterVersion m (setStatus st m).
Proof. intros. by repeat split. Qed.

Lemma grows_refl (ms : list Message) : grows ms ms.
Proof.
  exists ms, []. rewrite app_nil_r. split; [done|].
  apply Forall2_R_refl, laterVersion_refl.
Qed.

Lemma grows_trans (ms1 ms2 ms3 : list Message) :
  grows ms1 ms2 → grows ms2 ms3 → grows ms1 ms3.
Proof.
  intros (k1 & c1 & -> & H1) (k2 & c2 & -> & H2).
  apply Forall2_app_inv_l in H2 as (k2a & k2b & Ha & Hb & ->).
  exists k2a, (k2b ++ c2). rewrite <- app_assoc. split; [done|].
  eapply Forall2_trans; [|exact H1|exact Ha].
  apply laterVersion_trans.
Qed.

(** In place: no document created. *)
Lemma grows_in_place (ms ms' : list Message) :
  Forall2 laterVersion ms ms' → grows ms ms'.
Proof. intros H. exists ms', []. by rewrite app_nil_r. Qed.

Lemma grows_create (doc : Message) (ms : list Message) :
  grows ms (create doc ms).
Proof.
  exists ms, [doc]. split; [done|].
  apply Forall2_R_refl, laterVersion_refl.
Qed.

(** A document found by id in a collection is found by the same id in
    every later collection, as a later version. *)
Lemma grows_findById (ms ms' : list Message) (id : nat) (m : Message) :
  grows ms ms' →
  findById ms id = Some m →
  ∃ m', findById ms' id = Some m' ∧ laterVersion m m'.
Proof.
  intros (kept & created & -> & HF). unfold findById.
  induction HF as [|x y ms kept Hxy HF IH]; simpl; [done|].
  assert (Hid : _id y = _id x) by apply Hxy.
  destruct (decide (_id x = id)) as [Hx|Hx].
  - rewrite !bool_decide_eq_true_2 by congruence.
    intros [= <-]. eauto.
  - rewrite !bool_decide_eq_false_2 by congruence. exact IH.
Qed.

(** ** StatusTracker: the status line *)

Lemma rank_le_read (st : Status) : (rank st ≤ rank read)%nat.
Proof. destruct st; simpl; lia. Qed.

Lemma messageDelivered_grows (id : nat) (uid : string) (now : Z) (s : Store) :
  grows (messages s) (messages (messageDelivered id uid now s).1).
Proof.
  unfold messageDelivered.
  destruct (findById (messages s) id) as [m|] eqn:Hfind; [|apply grows_refl].
  simpl. destruct (groupId m).
  - destruct (existsb _ _); [apply grows_refl|].
    apply grows_in_place.
    eapply findByIdAndUpdate_Forall2;
      [apply laterVersion_refl|exact Hfind|].
    repeat split. simpl. destruct (decide (status m = sent)) as [->|]; simpl; lia.
  - destruct (decide (status m = sent)) as [Hs|]; [|apply grows_refl].
    apply grows_in_place.
    eapply findByIdAndUpdate_Forall2;
      [apply laterVersion_refl|exact Hfind|].
    apply laterVersion_setStatus. rewrite Hs. simpl. lia.
Qed.

Lemma messageRead_grows (id : nat) (uid : string) (now : Z) (s : Store) :
  grows (messages s) (messages (messageRead id uid now s).1).
Proof.
  unfold messageRead.
  destruct (findById (messages s) id) as [m|] eqn:Hfind; [|apply grows_refl].
  simpl. destruct (groupId m).
  - destruct (existsb _ _); [apply grows_refl|].
    apply grows_in_place.
    eapply findByIdAndUpdate_Forall2;
      [apply laterVersion_refl|exact Hfind|].
    by repeat split.
  - apply grows_in_place.
    eapply findByIdAndUpdate_Forall2;
      [apply laterVersion_refl|exact Hfind|].
    apply laterVersion_setStatus, rank_le_read.
Qed.

Lemma markRead_grows (sender receiver : string) (ms : list Message) :
  grows ms (updateMany (unreadFromTo sender receiver) (setStatus read) ms).
Proof.
  apply grows_in_place, updateMany_Forall2; [apply laterVersion_refl|].
  intros m _. apply laterVersion_setStatus, rank_le_read.
Qed.

Lemma getMessages_grows (me other : string) (page limit : option Z)
  (o : Settle) (s : Store) :
  grows (messages s) (messages (getMessages me other page limit o s).1.1).
Proof.
  unfold getMessages.
  destruct (queryPromise _ _ _ _ _); try apply grows_refl.
  destruct (forallb _ _); [|apply grows_refl].
  destruct (decide _); [|apply grows_refl]. simpl.
  apply grows_in_place, updateMany_Forall2; [apply laterVersion_refl|].
  intros m Hq. apply andb_prop in Hq as [_ Hst].
  apply bool_decide_eq_true in Hst.
  apply laterVersion_setStatus. rewrite Hst. simpl. lia.
Qed.

Lemma sendMessage_grows (sender receiver body : string) (now : Z) (s : Store) :
  grows (messages s) (messages (sendMessage sender receiver body now s).1.1).
Proof.
  unfold sendMessage. destruct (decide _); [apply grows_refl|].
  apply grows_create.
Qed.

Lemma sendGroupMessage_grows (sender group body : string) (now : Z) (s : Store) :
  grows (messages s) (messages (sendGroupMessage sender group body now s).1.1).
Proof.
  unfold sendGroupMessage. destruct (decide _); [apply grows_refl|].
  destruct (shouldSuppress _ _ _) as [[] cache]; [apply grows_refl|].
  apply grows_create.
Qed.

Lemma getGroupMessages_store (group : string) (page limit : option Z)
  (o : Settle) (s : Store) :
  (getGroupMessages group page limit o s).1.1 = s.
Proof.
  unfold getGroupMessages.
  by destruct (raceTimeout _ _) as [[total msgs]|].
Qed.

(** Every operation leaves the collection a later version of itself. *)
Lemma step_grows (op : Op) (s : Store) :
  grows (messages s) (messages (step op s)).
Proof.
  destruct op; simpl.
  - apply grows_refl.
  - apply grows_refl.
  - apply sendMessage_grows.
  - apply sendGroupMessage_grows.
  - apply messageDelivered_grows.
  - apply messageRead_grows.
  - apply markRead_grows.
  - apply markRead_grows.
  - apply getMessages_grows.
  - rewrite getGroupMessages_store. apply grows_refl.
  - apply grows_refl.
Qed.

Lemma run_grows (ops : list Op) (s : Store) :
  grows (messages s) (messages (run ops s)).
Proof.
  unfold run. revert s.
  induction ops as [|op ops IH]; intros s; simpl; [apply grows_refl|].
  eapply grows_trans; [apply step_grows|apply IH].
Qed.

(** Handlers that do not overlap.  Along every trace of operations each of
    which runs to completion before the next one starts (joins,
    disconnects, sends, delivery and read acknowledgments, both
    mark-as-read entry points, history fetches with their side update,
    cache sweeps), a message that exists at some point of the trace exists
    at every later point, with the same identity and content, and with a
    status that is not earlier on the line sent, delivered, read than it
    was. *)
Theorem status_never_regresses
  (s : Store) (ops1 ops2 : list Op) (id : nat) (m : Message) :
  findById (messages (run ops1 s)) id = Some m →
  ∃ m', findById (messages (run (ops1 ++ ops2) s)) id = Some m'
        ∧ laterVersion m m'
        ∧ (rank (status m) ≤ rank (status m'))%nat.
Proof.
  intros Hfind. unfold run. rewrite foldl_app. fold (run ops1 s).
  fold (run ops2 (run ops1 s)).
  destruct (grows_findById _ _ _ _ (run_grows ops2 (run ops1 s)) Hfind)
    as (m' & Hfind' & Hlater).
  exists m'. split_and!; [done|done|apply Hlater].
Qed.

Lemma status_never_regresses_witness :
  let sends := [opSendMessage "alice" "dave" "hi" 1000] in
  let acks := [opMessageRead 0 "dave" 2000; opMessageDelivered 0 "dave" 3000;
               opGetMessages "dave" "alice" None None (fulfilled 10)] in
  findById (messages (run sends sampleStore)) 0
  = Some (mkMessage 0 "alice" (Some "dave") None "hi" sent [] [] 1000)
  ∧ ∃ m', findById (messages (run (sends ++ acks) sampleStore)) 0 = Some m'
          ∧ laterVersion
              (mkMessage 0 "alice" (Some "dave") None "hi" sent [] [] 1000) m'
          ∧ (rank sent ≤ rank (status m'))%nat.
Proof.
  intros sends acks.
  assert (H : findById (messages (run sends sampleStore)) 0
              = Some (mkMessage 0 "alice" (Some "dave") None "hi" sent [] [] 1000))
    by (vm_compute; reflexivity).
  split; [exact H|].
  apply (status_never_regresses sampleStore sends acks 0 _ H).
Defined.

(** ** StatusTracker: acknowledgments *)

Lemma existsb_userId (uid : string) (rs : list Receipt) :
  existsb (λ r, bool_decide (userId r = uid)) rs = true →
  uid ∈ userId <$> rs.
Proof.
  induction rs as [|r rs IH]; simpl; [done|].
  intros [H|H]%orb_prop.
  - apply bool_decide_eq_true in H. subst. left.
  - right. auto.
Qed.

(** C4, as the code has it.  A read acknowledgment on a group message
    records the user in [readBy] if absent, and leaves the stored status
    as it was: the group branch of the handler writes [readBy] only, so a
    group message that is [sent] or [delivered] stays so after the first
    read acknowledgment, and after every later one. *)
Theorem group_read_ack_leaves_status
  (s : Store) (id : nat) (uid : string) (now : Z) (m : Message) :
  findById (messages s) id = Some m →
  is_Some (groupId m) →
  ∃ m', findById (messages (messageRead id uid now s).1) id = Some m'
        ∧ status m' = status m
        ∧ uid ∈ userId <$> readBy m'
        ∧ readBy m' =
          (if existsb (λ r, bool_decide (userId r = uid)) (readBy m)
           then readBy m else readBy m ++ [mkReceipt uid now]).
Proof.
  intros Hfind [g Hg]. unfold messageRead. rewrite Hfind, Hg. simpl.
  destruct (existsb _ (readBy m)) eqn:Hex.
  - exists m. split_and!; try done. by apply existsb_userId.
  - rewrite findById_update_same by done. rewrite Hfind. simpl.
    eexists. split_and!; try done. simpl.
    rewrite fmap_app. apply elem_of_app. right. left.
Qed.

Lemma group_read_ack_leaves_status_witness :
  findById (messages groupChat) 0
  = Some (groupDocument "alice" "g1" "hi" 1000 sampleStore)
  ∧ is_Some (groupId (groupDocument "alice" "g1" "hi" 1000 sampleStore))
  ∧ ∃ m', findById (messages (messageRead 0 "bob" 2000 groupChat).1) 0 = Some m'
          ∧ status m' = delivered
          ∧ "bob" ∈ userId <$> readBy m'.
Proof.
  assert (H : findById (messages groupChat) 0
              = Some (groupDocument "alice" "g1" "hi" 1000 sampleStore))
    by (vm_compute; reflexivity).
  assert (Hg : is_Some (groupId (groupDocument "alice" "g1" "hi" 1000 sampleStore)))
    by (eexists; reflexivity).
  split_and!; [exact H|exact Hg|].
  destruct (group_read_ack_leaves_status groupChat 0 "bob" 2000 _ H Hg)
    as (m' & Hfind & Hstatus & Hin & _).
  exists m'. split_and!; [exact Hfind|exact Hstatus|exact Hin].
Defined.

(** C4, counterexample to the claim as stated: alice's message to the
    group is stored [delivered] with an empty [readBy]; after bob's read
    acknowledgment, the first one, [readBy] holds bob and the stored
    status is still [delivered], not [read]. *)
Lemma group_first_read_ack_keeps_delivered :
  findById (messages groupChat) 0
  = Some (mkMessage 0 "alice" None (Some "g1") "hi" delivered
            [mkReceipt "bob" 1000; mkReceipt "carol" 1000] [] 1000)
  ∧ findById (messages (messageRead 0 "bob" 2000 groupChat).1) 0
    = Some (mkMessage 0 "alice" None (Some "g1") "hi" delivered
              [mkReceipt "bob" 1000; mkReceipt "carol" 1000]
              [mkReceipt "bob" 2000] 1000)
  ∧ delivered ≠ read.
Proof. split_and!; [vm_compute; reflexivity|vm_compute; reflexivity|done]. Qed.

Lemma notifySender_online (s : Store) (m : Message) (id : nat)
  (literal : Status) (senderSocket : string) :
  JsMap.get (onlineUsers s) (senderId m) = Some senderSocket →
  senderSocket ≠ "" →
  notifySender s m id literal
  = [ioTo senderSocket (messageStatusUpdate id literal)].
Proof.
  intros Hsock Hne. unfold notifySender, truthy. rewrite Hsock.
  by rewrite decide_False.
Qed.

(** C10, as the code has it.  For an acknowledgment on an existing message
    whose sender is online, the event sent to the sender names the status
    the acknowledgment stands for: [delivered] for a delivery
    acknowledgment, [read] for a read acknowledgment, whatever is stored.
    On a direct message that is the stored status after a read
    acknowledgment, and after a delivery acknowledgment unless the message
    was already [read]: then the stored status stays [read] while the
    event names [delivered]. *)
Theorem ack_event_names_the_acknowledged_status
  (s : Store) (id : nat) (uid : string) (now : Z) (m : Message)
  (senderSocket : string) :
  findById (messages s) id = Some m →
  JsMap.get (onlineUsers s) (senderId m) = Some senderSocket →
  senderSocket ≠ "" →
  (messageDelivered id uid now s).2
  = [ioTo senderSocket (messageStatusUpdate id delivered)]
  ∧ (messageRead id uid now s).2
    = [ioTo senderSocket (messageStatusUpdate id read)]
  ∧ (groupId m = None →
     status <$> findById (messages (messageRead id uid now s).1) id
     = Some read)
  ∧ (groupId m = None →
     status <$> findById (messages (messageDelivered id uid now s).1) id
     = Some (if decide (status m = read) then read else delivered)).
Proof.
  intros Hfind Hsock Hne. unfold messageDelivered, messageRead.
  rewrite Hfind. simpl.
  rewrite !(notifySender_online _ _ _ _ _ Hsock Hne).
  split_and!; [done|done| |]; intros ->.
  - rewrite findById_update_same by done. by rewrite Hfind.
  - destruct (decide (status m = sent)) as [Hs|Hs].
    + rewrite findById_update_same by done. rewrite Hfind. simpl.
      rewrite Hs. by rewrite decide_False.
    + rewrite Hfind. simpl. by destruct (status m).
Qed.

Lemma ack_event_names_the_acknowledged_status_witness :
  findById (messages readChat) 0
  = Some (mkMessage 0 "alice" (Some "bob") None "hi" read [] [] 1000)
  ∧ JsMap.get (onlineUsers readChat) "alice" = Some "sock-a"
  ∧ "sock-a" ≠ ""
  ∧ (messageRead 0 "bob" 3000 readChat).2
    = [ioTo "sock-a" (messageStatusUpdate 0 read)].
Proof.
  assert (H : findById (messages readChat) 0
              = Some (mkMessage 0 "alice" (Some "bob") None "hi" read [] [] 1000))
    by (vm_compute; reflexivity).
  assert (Hsock : JsMap.get (onlineUsers readChat) "alice" = Some "sock-a")
    by (vm_compute; reflexivity).
  assert (Hne : "sock-a" ≠ "") by discriminate.
  split_and!; [exact H|exact Hsock|exact Hne|].
  apply (ack_event_names_the_acknowledged_status
           readChat 0 "bob" 3000 _ "sock-a" H Hsock Hne).
Defined.

(** C10, counterexample to the claim as stated: bob has read alice's
    message, so it is stored [read]; a delivery acknowledgment from bob
    that arrives afterwards changes nothing in the store, and alice's
    socket is sent a status update naming [delivered]. *)
Lemma late_delivered_ack_names_delivered_on_read_message :
  status <$> findById (messages readChat) 0 = Some read
  ∧ (messageDelivered 0 "bob" 3000 readChat).2
    = [ioTo "sock-a" (messageStatusUpdate 0 delivered)]
  ∧ status <$> findById (messages (messageDelivered 0 "bob" 3000 readChat).1) 0
    = Some read
  ∧ (rank delivered < rank read)%nat.
Proof.
  split_and!; [vm_compute; reflexivity|vm_compute; reflexivity
              |vm_compute; reflexivity|simpl; lia].
Qed.

(** ** HistoryReader *)

(** The group fetch answers 200 with a page whatever storage does. *)
Lemma getGroupMessages_always_200 (group : string) (page limit : option Z)
  (o : Settle) (s : Store) :
  ∃ msgs pag, (getGroupMessages group page limit o s).2 = json200page msgs pag.
Proof.
  unfold getGroupMessages.
  destruct (raceTimeout _ _) as [[total msgs]|]; simpl; eauto.
Qed.

(** C5, as the code has it: the timeout exists on the group path.  A group
    fetch whose storage promise has not settled when the 3000 ms timer
    fires (it settles later, or never) answers 200 with the empty page,
    zero total, zero pages and [hasMore] false, emits nothing and changes
    nothing. *)
Theorem group_history_timeout_is_empty_page
  (group : string) (page limit : option Z) (o : Settle) (s : Store) :
  exceedsBudget o →
  getGroupMessages group page limit o s = (s, [], emptyPage page).
Proof.
  intros Hlate. unfold getGroupMessages, emptyPage.
  destruct o as [e|e|]; simpl in *; try done.
  destruct (findPage _ _ _ _); simpl; [|done].
  by rewrite decide_False by lia.
Qed.

Lemma group_history_timeout_is_empty_page_witness :
  exceedsBudget (fulfilled 5000)
  ∧ getGroupMessages "g1" None None (fulfilled 5000) groupChat
    = (groupChat, [], emptyPage None).
Proof.
  assert (H : exceedsBudget (fulfilled 5000)) by (simpl; lia).
  split; [exact H|].
  apply (group_history_timeout_is_empty_page "g1" None None _ groupChat H).
Defined.

(** C5, counterexample to the claim as stated: the direct fetch has no
    timer.  With a storage promise that settles after 5000 ms, dave's
    fetch of his conversation with alice answers with the full page of one
    message when the promise is fulfilled, with a 500 error when it is
    rejected, and with nothing as long as it stays pending. *)
Lemma direct_history_has_no_timeout :
  exceedsBudget (fulfilled 5000)
  ∧ (getMessages "dave" "alice" None None (fulfilled 5000) pendingChat).2
    = json200page
        [mkMessage 0 "alice" (Some "dave") None "hi" sent [] [] 1000]
        (mkPagination 1 1 1 false)
  ∧ exceedsBudget (rejected 5000)
  ∧ (getMessages "dave" "alice" None None (rejected 5000) pendingChat).2
    = json500 "Failed to fetch messages"
  ∧ exceedsBudget pending
  ∧ (getMessages "dave" "alice" None None pending pendingChat).2 = noResponse.
Proof.
  split_and!; try (simpl; lia); try (vm_compute; reflexivity).
Qed.

(** C6, counterexample to the claim as stated: alice's message to dave is
    stored [sent]; after dave fetches the conversation it is stored
    [delivered]. *)
Lemma direct_fetch_advances_stored_status :
  status <$> findById (messages pendingChat) 0 = Some sent
  ∧ status <$> findById
                 (messages (getMessages "dave" "alice" None None (fulfilled 10)
                              pendingChat).1.1) 0
    = Some delivered.
Proof. split; vm_compute; reflexivity. Qed.

(** C6, as the code has it.  A group fetch leaves the whole state
    unchanged.  A direct fetch leaves the registry, the cache, the groups
    and the users unchanged and keeps every document at its place with
    its [deliveredTo] and [readBy]; a document is either untouched or was
    [sent] and is now [delivered], and the latter only when the fetch
    answered with a page holding a message with that id that is addressed
    to the requester and [sent]. *)
Theorem history_fetch_frame :
  (∀ group page limit o s, (getGroupMessages group page limit o s).1.1 = s)
  ∧ (∀ me other page limit o s,
       let r := getMessages me other page limit o s in
       onlineUsers r.1.1 = onlineUsers s
       ∧ messageCache r.1.1 = messageCache s
       ∧ groups r.1.1 = groups s
       ∧ users r.1.1 = users s
       ∧ Forall2
           (λ m m',
              deliveredTo m' = deliveredTo m ∧ readBy m' = readBy m
              ∧ (m' = m
                 ∨ (status m = sent ∧ m' = setStatus delivered m
                    ∧ ∃ msgs pag m0,
                        r.2 = json200page msgs pag
                        ∧ m0 ∈ msgs ∧ _id m0 = _id m
                        ∧ undelivered me m0 = true)))
           (messages s) (messages r.1.1)).
Proof.
  split; [apply getGroupMessages_store|].
  intros me other page limit o s. simpl.
  assert (Hsame : ∀ (P : Message → Message → Prop),
             (∀ m, P m m) → Forall2 P (messages s) (messages s))
    by (intros P HP; by apply Forall2_R_refl).
  unfold getMessages.
  destruct (queryPromise _ _ _ _ _) as [e total msgs| |]; simpl;
    try (split_and!; try done; apply Hsame; by auto).
  destruct (forallb _ _); simpl;
    [|split_and!; try done; apply Hsame; by auto].
  destruct (decide _); simpl;
    [|split_and!; try done; apply Hsame; by auto].
  split_and!; try done.
  apply updateMany_Forall2; [by auto|].
  intros m Hq. apply andb_prop in Hq as [Hid Hst].
  apply bool_decide_eq_true in Hid, Hst.
  split_and!; [done|done|]. right. split_and!; [done|done|].
  apply list_elem_of_fmap in Hid as (m0 & Hid0 & Hm0).
  apply list_elem_of_In, filter_In in Hm0 as [Hin Hund].
  eexists _, _, m0. split_and!; [done| |done|done].
  by apply list_elem_of_In.
Qed.

#[local] Instance newerFirst_trans : Transitive newerFirst.
Proof. unfold newerFirst. intros a b c. lia. Qed.

#[local] Instance newerFirst_total : Total newerFirst.
Proof. unfold newerFirst. intros a b. lia. Qed.


Lemma sortDesc_elem (m : Message) (l : list Message) : m ∈ sortDesc l ↔ m ∈ l.
Proof. unfold sortDesc. by rewrite merge_sort_Permutation. Qed.







(** A fetch of the second page of size two of five group messages: the
    five are sorted newest first, two are skipped, two taken, and the
    answer lists those two oldest first. *)
Example group_history_second_page :
  let s := run [opSendGroupMessage "alice" "g1" "a" 10;
                opSendGroupMessage "alice" "g1" "b" 20;
                opSendGroupMessage "alice" "g1" "c" 30;
                opSendGroupMessage "alice" "g1" "d" 40;
                opSendGroupMessage "alice" "g1" "e" 50] sampleStore in
  match (getGroupMessages "g1" (Some 2) (Some 2) (fulfilled 40) s).2 with
  | json200page msgs pag =>
      message <$> msgs = ["b"; "c"]
      ∧ pag = mkPagination 2 3 5 true
  | _ => False
  end.
Proof. vm_compute. split; reflexivity. Qed.

(** ** Reachable states *)

(** Only [join] and [disconnect] write the registry. *)
Lemma step_onlineUsers (op : Op) (s : Store) :
  onlineUsers (step op s)
  = match op with
    | opJoin sock uid => JsMap.set (onlineUsers s) uid sock
    | opDisconnect sock => onlineUsers (disconnect sock s).1
    | _ => onlineUsers s
    end.
Proof.
  destruct op; simpl; try done.
  - unfold sendMessage. by destruct (decide _).
  - unfold sendGroupMessage. destruct (decide _); [done|].
    by destruct (shouldSuppress _ _ _) as [[] cache].
  - unfold messageDelivered. by destruct (findById _ _).
  - unfold messageRead. by destruct (findById _ _).
  - unfold getMessages. destruct (queryPromise _ _ _ _ _); try done.
    destruct (forallb _ _); [|done]. by destruct (decide _).
  - by rewrite getGroupMessages_store.
Qed.

(** The registry holds each user once in every state the system reaches
    from a state where it does, in particular from the empty registry the
    process starts with. *)
Lemma run_wf (ops : list Op) (s : Store) :
  JsMap.wf (onlineUsers s) → JsMap.wf (onlineUsers (run ops s)).
Proof.
  unfold run. revert s.
  induction ops as [|op ops IH]; intros s Hwf; simpl; [done|].
  apply IH. rewrite step_onlineUsers.
  destruct op; try done.
  - by apply JsMapFacts.wf_set.
  - simpl. destruct (disconnectedUserId _ _); [|done].
    by apply JsMapFacts.wf_delete.
Qed.

(** * Further properties of the code *)

#[local] Set Warnings "-clear-no-such-hyp".

(** ** PresenceRegistry: join and disconnect together *)

Lemma JsMap_get_set_eq {V} (m : JsMap.t V) (k : string) (v : V) :
  JsMap.get (JsMap.set m k v) k = Some v.
Proof.
  induction m as [|[k0 v0] m IH]; simpl.
  - by destruct (decide (k = k)).
  - destruct (decide (k0 = k)) as [->|Hk]; simpl.
    + by destruct (decide (k = k)).
    + by destruct (decide (k0 = k)).
Qed.

Lemma JsMap_get_set_ne {V} (m : JsMap.t V) (k k' : string) (v : V) :
  k ≠ k' → JsMap.get (JsMap.set m k v) k' = JsMap.get m k'.
Proof.
  intros Hne. induction m as [|[k0 v0] m IH]; simpl.
  - by destruct (decide (k = k')).
  - destruct (decide (k0 = k)) as [->|Hk]; simpl.
    + by destruct (decide (k = k')).
    + destruct (decide (k0 = k')); [done|exact IH].
Qed.

Lemma JsMap_keys_set {V} (m : JsMap.t V) (k : string) (v : V) :
  JsMap.keys (JsMap.set m k v)
  = if decide (k ∈ JsMap.keys m) then JsMap.keys m else JsMap.keys m ++ [k].
Proof.
  unfold JsMap.keys. induction m as [|[k0 v0] m IH].
  - simpl. destruct (decide (k ∈ [])) as [Hin|_]; [|done].
    by apply elem_of_nil in Hin.
  - cbn [JsMap.set fmap list_fmap fst].
    destruct (decide (k0 = k)) as [->|Hk]; cbn [fmap list_fmap fst].
    + destruct (decide (k ∈ k :: m.*1)) as [_|Hn]; [done|].
      exfalso. apply Hn. left.
    + rewrite IH. destruct (decide (k ∈ m.*1)) as [Hin|Hin].
      * destruct (decide (k ∈ k0 :: m.*1)) as [_|Hn]; [done|].
        exfalso. apply Hn. by right.
      * destruct (decide (k ∈ k0 :: m.*1)) as [Hy|_]; [|done].
        apply elem_of_cons in Hy as [?|?]; [congruence|done].
Qed.

Lemma JsMap_set_absent {V} (m : JsMap.t V) (k : string) (v : V) :
  JsMap.get m k = None → JsMap.set m k v = m ++ [(k, v)].
Proof.
  induction m as [|[k0 v0] m IH]; simpl; [done|].
  destruct (decide (k0 = k)); [done|]. intros H. by rewrite IH.
Qed.

(** In a well-formed map, the entries after a [set] are the new entry and
    the old entries under other keys. *)
Lemma JsMap_elem_set {V} (m : JsMap.t V) (k : string) (v : V) (e : string * V) :
  JsMap.wf m →
  e ∈ JsMap.set m k v → e = (k, v) ∨ (e ∈ m ∧ e.1 ≠ k).
Proof.
  unfold JsMap.wf, JsMap.keys.
  induction m as [|[k0 v0] m IH]; simpl; intros Hwf.
  - intros ->%list_elem_of_singleton. by left.
  - apply NoDup_cons in Hwf as [Hnotin Hwf].
    destruct (decide (k0 = k)) as [->|Hk].
    + intros [->|He]%elem_of_cons; [by left|].
      right. split; [by right|]. intros Hek. apply Hnotin.
      apply list_elem_of_fmap. by exists e.
    + intros [->|He]%elem_of_cons.
      * right. split; [left|done].
      * destruct (IH Hwf He) as [->|[Hin Hne]]; [by left|].
        right. split; [by right|done].
Qed.

Lemma JsMap_delete_last {V} (m : JsMap.t V) (k : string) (v : V) :
  JsMap.get m k = None → JsMap.delete (m ++ [(k, v)]) k = m.
Proof.
  induction m as [|[k0 v0] m IH]; simpl.
  - by destruct (decide (k = k)).
  - destruct (decide (k0 = k)); [done|]. intros H. by rewrite IH.
Qed.

Lemma disconnectedUserId_last (reg : JsMap.t string) (uid socketId : string) :
  (∀ e, e ∈ reg → e.2 ≠ socketId) →
  disconnectedUserId (reg ++ [(uid, socketId)]) socketId = Some uid.
Proof.
  induction reg as [|[k v] reg IH]; simpl; intros Hnone.
  - by destruct (decide (socketId = socketId)).
  - destruct (decide (v = socketId)) as [Hv|Hv].
    + exfalso. apply (Hnone (k, v)); [left|done].
    + apply IH. intros e He. apply Hnone. by right.
Qed.

(** X1.  After a join the user's entry holds the joining socket, whatever
    it held before; every other user's entry reads as before; the roster
    gains the user at its end if the user was not registered and is
    unchanged, order included, if the user was (a reconnect); that roster
    is what is broadcast. *)
Theorem join_registers_the_last_handle (socketId uid : string) (s : Store) :
  JsMap.get (onlineUsers (join socketId uid s).1) uid = Some socketId
  ∧ (∀ other, other ≠ uid →
       JsMap.get (onlineUsers (join socketId uid s).1) other
       = JsMap.get (onlineUsers s) other)
  ∧ JsMap.keys (onlineUsers (join socketId uid s).1)
    = (if decide (uid ∈ JsMap.keys (onlineUsers s))
       then JsMap.keys (onlineUsers s)
       else JsMap.keys (onlineUsers s) ++ [uid])
  ∧ (join socketId uid s).2
    = [ioEmit (onlineUsersEvent
                 (JsMap.keys (onlineUsers (join socketId uid s).1)))]
  ∧ messages (join socketId uid s).1 = messages s
  ∧ messageCache (join socketId uid s).1 = messageCache s.
Proof.
  unfold join. simpl. split_and!; try done.
  - apply JsMap_get_set_eq.
  - intros other Hne. by apply JsMap_get_set_ne.
  - apply JsMap_keys_set.
Qed.

(** X2.  A user who has reconnected stays online when the old socket
    disconnects: if the old socket was registered for no other user, the
    disconnect of the old socket after the join of the new one changes
    nothing. *)
Theorem stale_disconnect_keeps_reconnected_user
  (s : Store) (uid oldSocket newSocket : string) :
  JsMap.wf (onlineUsers s) →
  (∀ e, e ∈ onlineUsers s → e.2 = oldSocket → e.1 = uid) →
  oldSocket ≠ newSocket →
  (disconnect oldSocket (join newSocket uid s).1).1 = (join newSocket uid s).1
  ∧ JsMap.get (onlineUsers (disconnect oldSocket (join newSocket uid s).1).1) uid
    = Some newSocket.
Proof.
  intros Hwf Hold Hne.
  assert (Hsame : (disconnect oldSocket (join newSocket uid s).1).1
                  = (join newSocket uid s).1).
  { unfold disconnect. simpl.
    assert (Hnone : disconnectedUserId
                      (JsMap.set (onlineUsers s) uid newSocket) oldSocket = None).
    { apply disconnectedUserId_None. intros e He Hval.
      destruct (JsMap_elem_set _ _ _ _ Hwf He) as [->|[Hin Hkey]].
      - simpl in Hval. congruence.
      - by apply Hkey, Hold. }
    rewrite Hnone. by destruct s. }
  split; [exact Hsame|]. rewrite Hsame. unfold join. simpl.
  apply JsMap_get_set_eq.
Qed.

Lemma stale_disconnect_keeps_reconnected_user_witness :
  JsMap.wf (onlineUsers sampleStore)
  ∧ (∀ e, e ∈ onlineUsers sampleStore → e.2 = "sock-b" → e.1 = "bob")
  ∧ "sock-b" ≠ "sock-b2"
  ∧ JsMap.get (onlineUsers
                 (disconnect "sock-b" (join "sock-b2" "bob" sampleStore).1).1)
      "bob"
    = Some "sock-b2".
Proof.
  assert (Hwf : JsMap.wf (onlineUsers sampleStore)) by compute_done.
  assert (Hold : ∀ e, e ∈ onlineUsers sampleStore → e.2 = "sock-b" → e.1 = "bob").
  { intros e He. simpl in He.
    repeat (apply elem_of_cons in He as [->|He]); simpl; try done.
    by apply elem_of_nil in He. }
  assert (Hne : "sock-b" ≠ "sock-b2") by discriminate.
  split_and!; [exact Hwf|exact Hold|exact Hne|].
  apply (stale_disconnect_keeps_reconnected_user
           sampleStore "bob" "sock-b" "sock-b2" Hwf Hold Hne).
Defined.

(** X3.  Joining and then disconnecting is a round trip for the presence
    registry: when the user was not registered and no entry carried the
    socket's id, the disconnect of that socket after the join finds that
    user, leaves the registry, the Message collection and the cache as
    they were before the join, and broadcasts the roster of before the
    join.  The user's document is not restored: the join writes
    [isOnline] true for the user and the disconnect then writes
    [isOnline] false (unless the user id is the empty string). *)
Theorem join_then_disconnect_restores_registry
  (s : Store) (uid socketId : string) :
  JsMap.get (onlineUsers s) uid = None →
  (∀ e, e ∈ onlineUsers s → e.2 ≠ socketId) →
  disconnectedUserId (onlineUsers (join socketId uid s).1) socketId = Some uid
  ∧ onlineUsers (disconnect socketId (join socketId uid s).1).1 = onlineUsers s
  ∧ messages (disconnect socketId (join socketId uid s).1).1 = messages s
  ∧ messageCache (disconnect socketId (join socketId uid s).1).1
    = messageCache s
  ∧ (disconnect socketId (join socketId uid s).1).2
    = [ioEmit (onlineUsersEvent (JsMap.keys (onlineUsers s)))]
  ∧ joinUserWrite uid = (uid, true)
  ∧ disconnectUserWrite socketId (join socketId uid s).1
    = (if decide (uid = "") then None else Some (uid, false)).
Proof.
  intros Habsent Hfresh. unfold disconnectUserWrite, disconnect, join. simpl.
  rewrite (JsMap_set_absent _ _ _ Habsent).
  rewrite (disconnectedUserId_last _ _ _ Hfresh).
  rewrite (JsMap_delete_last _ _ _ Habsent). simpl.
  split_and!; try done. by destruct (decide (uid = "")).
Qed.

Lemma join_then_disconnect_restores_registry_witness :
  JsMap.get (onlineUsers sampleStore) "dave" = None
  ∧ (∀ e, e ∈ onlineUsers sampleStore → e.2 ≠ "sock-d")
  ∧ onlineUsers (disconnect "sock-d" (join "sock-d" "dave" sampleStore).1).1
    = onlineUsers sampleStore
  ∧ disconnectUserWrite "sock-d" (join "sock-d" "dave" sampleStore).1
    = Some ("dave", false).
Proof.
  assert (Habsent : JsMap.get (onlineUsers sampleStore) "dave" = None)
    by (vm_compute; reflexivity).
  assert (Hfresh : ∀ e, e ∈ onlineUsers sampleStore → e.2 ≠ "sock-d").
  { intros e He. simpl in He.
    repeat (apply elem_of_cons in He as [->|He]); simpl; try done.
    by apply elem_of_nil in He. }
  split_and!; [exact Habsent|exact Hfresh| |].
  - apply (join_then_disconnect_restores_registry
             sampleStore "dave" "sock-d" Habsent Hfresh).
  - destruct (join_then_disconnect_restores_registry
                sampleStore "dave" "sock-d" Habsent Hfresh)
      as (_ & _ & _ & _ & _ & _ & Hwrite).
    exact Hwrite.
Defined.

Lemma truthy_Some (x : option string) (sock : string) :
  truthy x = Some sock ↔ x = Some sock ∧ sock ≠ "".
Proof.
  unfold truthy. destruct x as [v|]; [|split; [done|by intros [? _]]].
  destruct (decide (v = "")) as [->|Hv].
  - split; [done|]. by intros [[= <-] ?].
  - split; [by intros [= <-]|]. by intros [[= <-] _].
Qed.

(** ** Socket relays *)

(** X4.  The socket relay of a group message writes to exactly the
    sockets of the listed members that are online and are not the
    emitting socket, with the payload unchanged: it never echoes to the
    emitter, and without a member array it writes to nobody. *)
Theorem socket_group_relay_never_echoes {D : Type}
  (reg : JsMap.t string) (socketId : string)
  (groupMembers : option (list string)) (data : D) :
  (∀ sock d,
     (sock, d) ∈ socketSendGroupMessage reg socketId groupMembers data
     ↔ d = data ∧ sock ≠ socketId ∧ sock ≠ ""
       ∧ ∃ memberIds memberId,
           groupMembers = Some memberIds ∧ memberId ∈ memberIds
           ∧ JsMap.get reg memberId = Some sock)
  ∧ (groupMembers = None →
     socketSendGroupMessage reg socketId groupMembers data = []).
Proof.
  split; [|by intros ->].
  intros sock d. unfold socketSendGroupMessage.
  destruct groupMembers as [memberIds|].
  - rewrite list_elem_of_omap. split.
    + intros (memberId & Hin & Hf).
      destruct (truthy (JsMap.get reg memberId)) as [memberSocket|] eqn:Ht;
        [|done].
      destruct (decide (memberSocket ≠ socketId)); [|done].
      injection Hf as <- <-. apply truthy_Some in Ht as [Hget Hne].
      split_and!; try done. by exists memberIds, memberId.
    + intros (-> & Hecho & Hne & ids & memberId & [= <-] & Hin & Hget).
      exists memberId. split; [done|].
      assert (truthy (JsMap.get reg memberId) = Some sock) as ->
        by by apply truthy_Some.
      by rewrite decide_True.
  - split; [by intros ?%elem_of_nil|]. by intros (_&_&_&?&?&?&_).
Qed.

(** ** DeliveryRouter: direct and group sends *)

(** X5.  A well-formed direct send stores one new message, from the
    sender to the receiver, with empty receipt lists, and touches nothing
    else.  The message is stored [delivered] exactly when the receiver has
    a socket in the registry, and in exactly that case one
    [receiveMessage] event carrying the message goes to that socket;
    otherwise it is stored [sent] and nothing is emitted. *)
Theorem direct_send_status_follows_presence
  (sender receiver body : string) (now : Z) (s : Store) :
  receiver ≠ "" → body ≠ "" →
  ∃ m,
    sendMessage sender receiver body now s
    = (withMessages (messages s ++ [m]) s,
       match truthy (JsMap.get (onlineUsers s) receiver) with
       | Some sock => [ioTo sock (receiveMessage m)]
       | None => []
       end,
       json201 m)
    ∧ senderId m = sender ∧ receiverId m = Some receiver ∧ groupId m = None
    ∧ message m = body ∧ deliveredTo m = [] ∧ readBy m = []
    ∧ createdAt m = now
    ∧ (status m = delivered
       ↔ ∃ sock, JsMap.get (onlineUsers s) receiver = Some sock ∧ sock ≠ "")
    ∧ (status m = sent ↔ truthy (JsMap.get (onlineUsers s) receiver) = None).
Proof.
  intros Hr Hb. unfold sendMessage.
  rewrite decide_False by (intros [?|?]; done).
  eexists. split; [reflexivity|]. simpl. split_and!; try done.
  - destruct (truthy _) as [sock|] eqn:Ht.
    + split; [|done]. intros _. exists sock. by apply truthy_Some.
    + split; [done|]. intros (sock & Hget & Hne).
      assert (truthy (JsMap.get (onlineUsers s) receiver) = Some sock)
        by by apply truthy_Some.
      congruence.
  - by destruct (truthy _).
Qed.

Lemma direct_send_status_follows_presence_witness :
  "dave" ≠ "" ∧ "hi" ≠ ""
  ∧ ∃ m, sendMessage "alice" "dave" "hi" 1000 sampleStore
         = (withMessages (messages sampleStore ++ [m]) sampleStore,
            match truthy (JsMap.get (onlineUsers sampleStore) "dave") with
            | Some sock => [ioTo sock (receiveMessage m)]
            | None => []
            end,
            json201 m).
Proof.
  assert (Hr : "dave" ≠ "") by discriminate.
  assert (Hb : "hi" ≠ "") by discriminate.
  split_and!; [exact Hr|exact Hb|].
  destruct (direct_send_status_follows_presence
              "alice" "dave" "hi" 1000 sampleStore Hr Hb) as (m & Hm & _).
  exists m. exact Hm.
Defined.

(** X6.  An accepted group send emits [receiveGroupMessage], carrying the
    created message, to exactly the sockets of those members of the
    stored group that are not the sender and are online; the sender's own
    entry never receives it.  When the group document does not exist
    nothing is emitted, and the message is persisted all the same. *)
Theorem group_send_reaches_online_members_only
  (sender group body : string) (now : Z) (s : Store) (m : Message) :
  (sendGroupMessage sender group body now s).2 = json201 m →
  (∀ ev, ev ∈ (sendGroupMessage sender group body now s).1.2
         ↔ ∃ memberId sock,
             memberId ∈ default [] (groups s !! group)
             ∧ memberId ≠ sender
             ∧ JsMap.get (onlineUsers s) memberId = Some sock ∧ sock ≠ ""
             ∧ ev = ioTo sock (receiveGroupMessage m))
  ∧ (groups s !! group = None →
     (sendGroupMessage sender group body now s).1.2 = []
     ∧ messages (sendGroupMessage sender group body now s).1.1
       = messages s ++ [m]).
Proof.
  intros Hresp.
  destruct (sendGroupMessage_accepted _ _ _ _ _ _ Hresp)
    as (Hg & Hb & Hdup & Hm & Hs1).
  assert (Hemits : (sendGroupMessage sender group body now s).1.2
                   = (λ sock, ioTo sock (receiveGroupMessage m))
                       <$> groupRecipients (onlineUsers s) sender
                             (default [] (groups s !! group))).
  { unfold sendGroupMessage.
    rewrite decide_False by (intros [?|?]; done).
    destruct (shouldSuppress _ now (messageCache s)) as [dup cache].
    simpl in Hdup. subst dup. simpl. by rewrite Hm. }
  split.
  - intros ev. rewrite Hemits, list_elem_of_fmap. unfold groupRecipients.
    split.
    + intros (sock & -> & Hin). apply list_elem_of_omap in Hin
        as (memberId & Hmem & Hf).
      destruct (decide (memberId ≠ sender)); [|done].
      apply truthy_Some in Hf as [Hget Hne].
      by exists memberId, sock.
    + intros (memberId & sock & Hmem & Hns & Hget & Hne & ->).
      exists sock. split; [done|]. apply list_elem_of_omap.
      exists memberId. split; [done|]. rewrite decide_True by done.
      by apply truthy_Some.
  - intros Hnone. rewrite Hemits, Hnone, Hs1. done.
Qed.

Lemma group_send_reaches_online_members_only_witness :
  (sendGroupMessage "alice" "g1" "hi" 1000 sampleStore).2
  = json201 (groupDocument "alice" "g1" "hi" 1000 sampleStore)
  ∧ ioTo "sock-b"
      (receiveGroupMessage (groupDocument "alice" "g1" "hi" 1000 sampleStore))
    ∈ (sendGroupMessage "alice" "g1" "hi" 1000 sampleStore).1.2.
Proof.
  assert (H1 : (sendGroupMessage "alice" "g1" "hi" 1000 sampleStore).2
               = json201 (groupDocument "alice" "g1" "hi" 1000 sampleStore))
    by (vm_compute; reflexivity).
  split; [exact H1|].
  apply (group_send_reaches_online_members_only
           "alice" "g1" "hi" 1000 sampleStore _ H1).
  exists "bob", "sock-b". split_and!; try done.
  vm_compute. apply list_elem_of_In. simpl. tauto.
Defined.

(** ** DuplicateSuppressor: the sweep *)

(** What the sweep leaves under a key: the old timestamp if it is at most
    10000 ms old, nothing otherwise. *)
Lemma sweep_lookup (now : Z) (s : Store) (key : string) :
  messageCache (sweep now s) !! key
  = match messageCache s !! key with
    | Some t => if decide (now - t > 10000) then None else Some t
    | None => None
    end.
Proof.
  unfold sweep. simpl. rewrite map_lookup_filter.
  destruct (messageCache s !! key) as [t|]; simpl; [|done].
  destruct (decide (now - t > 10000)) as [Hold|Hrecent].
  - rewrite option_guard_False; [done|]. simpl. by intros ?.
  - by rewrite option_guard_True.
Qed.

(** X7.  A sweep does not defeat suppression.  After a group send accepted
    at a non-zero time [t1], a sweep at any time [t] up to the time [t2]
    of an identical send that comes less than 3000 ms after the first
    keeps the key, so the second send is still answered "Duplicate
    request ignored" and creates nothing.  The sweep itself touches only
    the cache. *)
Theorem sweep_does_not_defeat_suppression
  (s : Store) (sender group body : string) (t1 t t2 : Z) (m1 : Message) :
  (sendGroupMessage sender group body t1 s).2 = json201 m1 →
  t1 ≠ 0 → t ≤ t2 → t2 - t1 < 3000 →
  let s1 := (sendGroupMessage sender group body t1 s).1.1 in
  sendGroupMessage sender group body t2 (sweep t s1)
  = (sweep t s1, [], json200 "Duplicate request ignored")
  ∧ messages (sweep t s1) = messages s ++ [m1]
  ∧ onlineUsers (sweep t s1) = onlineUsers s.
Proof.
  intros Hfirst Ht1 Htt Hwin.
  destruct (sendGroupMessage_accepted _ _ _ _ _ _ Hfirst)
    as (Hg & Hb & _ & _ & Hs1).
  simpl. rewrite Hs1. set (s1 := withMessages _ _).
  split_and!; [|done|done].
  apply (sendGroupMessage_duplicate _ _ _ _ t1); try done.
  rewrite sweep_lookup. subst s1. simpl. rewrite lookup_insert_eq.
  rewrite decide_False by lia. done.
Qed.

Lemma sweep_does_not_defeat_suppression_witness :
  (sendGroupMessage "alice" "g1" "hi" 1000 sampleStore).2
  = json201 (groupDocument "alice" "g1" "hi" 1000 sampleStore)
  ∧ (1000 : Z) ≠ 0 ∧ 2000 ≤ 2500 ∧ 2500 - 1000 < 3000
  ∧ (sendGroupMessage "alice" "g1" "hi" 2500 (sweep 2000 groupChat)).2
    = json200 "Duplicate request ignored".
Proof.
  assert (H1 : (sendGroupMessage "alice" "g1" "hi" 1000 sampleStore).2
               = json201 (groupDocument "alice" "g1" "hi" 1000 sampleStore))
    by (vm_compute; reflexivity).
  assert (H0 : (1000 : Z) ≠ 0) by lia.
  assert (Ha : 2000 ≤ 2500) by lia.
  assert (Hb : 2500 - 1000 < 3000) by lia.
  split_and!; [exact H1|exact H0|exact Ha|exact Hb|].
  pose proof (sweep_does_not_defeat_suppression
                sampleStore "alice" "g1" "hi" 1000 2000 2500 _ H1 H0 Ha Hb)
    as [Hsend _].
  unfold groupChat. by rewrite Hsend.
Defined.

(** ** StatusTracker: marking a conversation read *)

Lemma setStatus_same (m : Message) : setStatus (status m) m = m.
Proof. by destruct m. Qed.

Lemma unreadFromTo_true (sender receiver : string) (m : Message) :
  unreadFromTo sender receiver m = true
  ↔ senderId m = sender ∧ receiverId m = Some receiver ∧ status m ≠ read.
Proof.
  unfold unreadFromTo. rewrite !andb_true_iff, !bool_decide_eq_true. tauto.
Qed.

(** X10.  Marking a conversation read, over HTTP or over the socket,
    rewrites the collection in place: every message from the sender to
    the receiver becomes [read], every other message (the replies in the
    other direction, other conversations, all group messages) is left
    exactly as it was.  Afterwards no message from the sender to the
    receiver is unread, both entry points give the same store, and doing
    it again changes nothing. *)
Theorem mark_as_read_reads_one_direction (sender receiver : string) (s : Store) :
  Forall2
    (λ m m',
       m' = if decide (senderId m = sender ∧ receiverId m = Some receiver)
            then setStatus read m else m)
    (messages s) (messages (markAsRead sender receiver s).1.1)
  ∧ (∀ m, m ∈ messages (markAsRead sender receiver s).1.1 →
          senderId m = sender → receiverId m = Some receiver →
          status m = read)
  ∧ (markMessagesRead sender receiver s).1 = (markAsRead sender receiver s).1.1
  ∧ (markAsRead sender receiver (markAsRead sender receiver s).1.1).1.1
    = (markAsRead sender receiver s).1.1
  ∧ onlineUsers (markAsRead sender receiver s).1.1 = onlineUsers s
  ∧ messageCache (markAsRead sender receiver s).1.1 = messageCache s.
Proof.
  unfold markAsRead, markMessagesRead. simpl. split_and!; try done.
  - unfold updateMany. apply Forall2_fmap_r.
    apply Forall2_R_refl. intros m. simpl.
    destruct (unreadFromTo sender receiver m) eqn:Hq.
    + apply unreadFromTo_true in Hq as (H1 & H2 & _).
      by rewrite decide_True.
    + destruct (decide _) as [[H1 H2]|]; [|done].
      destruct (decide (status m = read)) as [Hst|Hst].
      * by rewrite <- Hst, setStatus_same.
      * assert (unreadFromTo sender receiver m = true)
          by by apply unreadFromTo_true.
        congruence.
  - intros m Hin Hs Hr. unfold updateMany in Hin.
    apply list_elem_of_fmap in Hin as (m0 & -> & _).
    destruct (unreadFromTo sender receiver m0) eqn:Hq; [done|].
    destruct (decide (status m0 = read)) as [Hst|Hst]; [done|].
    assert (unreadFromTo sender receiver m0 = true)
      by by apply unreadFromTo_true.
    congruence.
  - unfold withMessages. simpl. f_equal.
    unfold updateMany. rewrite <- list_fmap_compose.
    apply list_fmap_ext. intros _ m _. simpl.
    destruct (unreadFromTo sender receiver m) eqn:Hq; [|by rewrite Hq].
    assert (unreadFromTo sender receiver (setStatus read m) = false) as ->; [|done].
    unfold unreadFromTo. simpl. by rewrite !andb_false_r.
Qed.

(** ** HistoryReader: the side update of a direct fetch *)

(** X11.  Reading implies delivery.  When a direct fetch answers with a
    page that holds a message addressed to the requester and still
    [sent], no stored message with that id is [sent] afterwards, and the
    other party, if online, is sent one [messagesDelivered] event naming
    the requester.  When the page holds no such message, the fetch
    changes nothing and emits nothing. *)
Theorem direct_fetch_delivers_what_it_shows
  (me other : string) (page limit : option Z) (o : Settle) (s : Store)
  (msgs : list Message) (pag : Pagination) :
  (getMessages me other page limit o s).2 = json200page msgs pag →
  ((∃ m0, m0 ∈ msgs ∧ undelivered me m0 = true) →
     (∀ m0 m, m0 ∈ msgs → undelivered me m0 = true →
              m ∈ messages (getMessages me other page limit o s).1.1 →
              _id m = _id m0 → status m ≠ sent)
     ∧ (getMessages me other page limit o s).1.2
       = match truthy (JsMap.get (onlineUsers s) other) with
         | Some sock => [ioTo sock (messagesDelivered me)]
         | None => []
         end)
  ∧ ((∀ m0, m0 ∈ msgs → undelivered me m0 = false) →
     (getMessages me other page limit o s).1.1 = s
     ∧ (getMessages me other page limit o s).1.2 = []).
Proof.
  unfold getMessages.
  destruct (queryPromise _ _ _ _ _) as [e total slice| |]; simpl; try done.
  destruct (forallb _ _); simpl; [|done].
  set (ids := _id <$> List.filter (undelivered me) (reverse slice)).
  assert (Hids : ∀ m0, m0 ∈ reverse slice → undelivered me m0 = true →
                       _id m0 ∈ ids).
  { intros m0 Hin Hund. apply list_elem_of_fmap_2.
    apply list_elem_of_In, filter_In. split; [by apply list_elem_of_In|done]. }
  destruct (decide (0 < length ids)%nat) as [Hsome|Hnone]; simpl;
    intros [= <- _].
  - split.
    + intros _. split; [|done].
      intros m0 m Hin0 Hund Hin Hid Hst.
      unfold updateMany in Hin.
      apply list_elem_of_fmap in Hin as (x & -> & _).
      destruct (bool_decide (_id x ∈ ids) && bool_decide (status x = sent))
        eqn:Hq; [done|].
      apply andb_false_iff in Hq as [Hq|Hq].
      * apply bool_decide_eq_false in Hq. apply Hq. rewrite Hid. auto.
      * apply bool_decide_eq_false in Hq. done.
    + intros Hnone. exfalso.
      destruct ids as [|i ids'] eqn:Eids; [simpl in Hsome; lia|].
      assert (Hi : i ∈ _id <$> List.filter (undelivered me) (reverse slice))
        by (fold ids; rewrite Eids; left).
      apply list_elem_of_fmap in Hi as (m0 & _ & Hm0).
      apply list_elem_of_In, filter_In in Hm0 as [Hin Hund].
      rewrite Hnone in Hund; [done|by apply list_elem_of_In].
  - split; [|done].
    intros (m0 & Hin & Hund). exfalso. apply Hnone.
    pose proof (Hids _ Hin Hund) as Hi.
    destruct ids; [by apply elem_of_nil in Hi|simpl; lia].
Qed.

Lemma direct_fetch_delivers_what_it_shows_witness :
  (getMessages "dave" "alice" None None (fulfilled 10) pendingChat).2
  = json200page [mkMessage 0 "alice" (Some "dave") None "hi" sent [] [] 1000]
      (mkPagination 1 1 1 false)
  ∧ (getMessages "dave" "alice" None None (fulfilled 10) pendingChat).1.2
    = [ioTo "sock-a" (messagesDelivered "dave")].
Proof.
  assert (H : (getMessages "dave" "alice" None None (fulfilled 10) pendingChat).2
              = json200page
                  [mkMessage 0 "alice" (Some "dave") None "hi" sent [] [] 1000]
                  (mkPagination 1 1 1 false))
    by (vm_compute; reflexivity).
  split; [exact H|].
  destruct (direct_fetch_delivers_what_it_shows
              "dave" "alice" None None (fulfilled 10) pendingChat _ _ H)
    as [Hyes _].
  destruct Hyes as [_ Hev].
  - eexists. split; [left|]. vm_compute. reflexivity.
  - rewrite Hev. vm_compute. reflexivity.
Defined.

(** ** HistoryReader: what a page holds *)

Lemma orDefault_nonzero (parsed : option Z) (d : Z) :
  d ≠ 0 → orDefault parsed d ≠ 0.
Proof.
  intros Hd. unfold orDefault. destruct parsed as [n|]; [|done].
  by destruct (decide (n = 0)).
Qed.

Lemma findPage_elem (query : Message → bool) (skip limit : Z)
  (ms slice : list Message) (m : Message) :
  findPage query skip limit ms = Some slice →
  m ∈ slice → m ∈ ms ∧ query m = true.
Proof.
  unfold findPage. destruct (decide (skip < 0)); [done|]. intros [= <-] Hin.
  assert (Hsorted : m ∈ sortDesc (List.filter query ms)).
  { destruct (decide (limit = 0)).
    - by eapply subseteq_drop.
    - eapply subseteq_drop, subseteq_take, Hin. }
  apply sortDesc_elem, list_elem_of_In, filter_In in Hsorted as [Hin' Hq].
  split; [by apply list_elem_of_In|done].
Qed.

Lemma sortDesc_length (l : list Message) : length (sortDesc l) = length l.
Proof. unfold sortDesc. by rewrite merge_sort_Permutation. Qed.

Lemma findPage_length (query : Message → bool) (skip limit : Z)
  (ms slice : list Message) :
  findPage query skip limit ms = Some slice →
  limit ≠ 0 →
  Z.of_nat (length slice)
  = Z.max 0 (Z.min (Z.abs limit) (countDocuments query ms - skip)).
Proof.
  unfold findPage, countDocuments.
  destruct (decide (skip < 0)); [done|]. intros [= <-] Hl.
  rewrite decide_False by done.
  rewrite length_take, length_drop, sortDesc_length. lia.
Qed.

Lemma groupQuery_true (group : string) (m : Message) :
  groupQuery group m = true ↔ groupId m = Some group.
Proof. unfold groupQuery. apply bool_decide_eq_true. Qed.

Lemma directQuery_true (me other : string) (m : Message) :
  directQuery me other m = true
  ↔ groupId m = None
    ∧ ((senderId m = me ∧ receiverId m = Some other)
       ∨ (senderId m = other ∧ receiverId m = Some me)).
Proof.
  unfold directQuery.
  rewrite andb_true_iff, orb_true_iff, !andb_true_iff, !bool_decide_eq_true.
  tauto.
Qed.

(** What a direct fetch that answers with a page has computed. *)
Lemma getMessages_page (me other : string) (page limit : option Z)
  (o : Settle) (s : Store) (msgs : list Message) (pag : Pagination) :
  (getMessages me other page limit o s).2 = json200page msgs pag →
  ∃ slice,
    findPage (directQuery me other)
      ((orDefault page 1 - 1) * orDefault limit 50) (orDefault limit 50)
      (messages s) = Some slice
    ∧ msgs = reverse slice
    ∧ pag = mkPagination (orDefault page 1)
              (ceilDiv (countDocuments (directQuery me other) (messages s))
                       (orDefault limit 50))
              (countDocuments (directQuery me other) (messages s))
              (bool_decide
                 ((orDefault page 1 - 1) * orDefault limit 50
                  + Z.of_nat (length (reverse slice))
                  < countDocuments (directQuery me other) (messages s))).
Proof.
  unfold getMessages, queryPromise.
  destruct o as [e|e|]; simpl; try done.
  destruct (findPage _ _ _ _) as [slice|] eqn:Hpage; simpl; [|done].
  destruct (forallb _ _); simpl; [|done].
  intros Hresp. exists slice. split; [done|].
  destruct (decide _); simpl in Hresp; by injection Hresp as <- <-.
Qed.

(** What a group fetch whose query settles in time has computed. *)
Lemma getGroupMessages_page (group : string) (page limit : option Z)
  (e : Z) (s : Store) (slice : list Message) :
  e < 3000 →
  findPage (groupQuery group)
    ((orDefault page 1 - 1) * orDefault limit 50) (orDefault limit 50)
    (messages s) = Some slice →
  (getGroupMessages group page limit (fulfilled e) s).2
  = json200page (reverse slice)
      (mkPagination (orDefault page 1)
         (ceilDiv (countDocuments (groupQuery group) (messages s))
                  (orDefault limit 50))
         (countDocuments (groupQuery group) (messages s))
         (bool_decide
            ((orDefault page 1 - 1) * orDefault limit 50
             + Z.of_nat (length slice)
             < countDocuments (groupQuery group) (messages s)))).
Proof.
  intros He Hpage. unfold getGroupMessages, queryPromise. rewrite Hpage.
  simpl. by rewrite decide_True.
Qed.

(** X12.  A history page never shows a message of another conversation.
    Every message on a page of a direct fetch is stored, has no group,
    and goes from the requester to the other party or back; every
    message on a page of a group fetch is stored and belongs to that
    group.  In both cases the page holds at most [|limit|] messages,
    [limit] being the parsed limit or 50. *)
Theorem history_pages_show_only_the_conversation :
  (∀ me other page limit o s msgs pag,
     (getMessages me other page limit o s).2 = json200page msgs pag →
     (∀ m, m ∈ msgs →
        m ∈ messages s ∧ groupId m = None
        ∧ ((senderId m = me ∧ receiverId m = Some other)
           ∨ (senderId m = other ∧ receiverId m = Some me)))
     ∧ Z.of_nat (length msgs) ≤ Z.abs (orDefault limit 50))
  ∧ (∀ group page limit o s msgs pag,
       (getGroupMessages group page limit o s).2 = json200page msgs pag →
       (∀ m, m ∈ msgs → m ∈ messages s ∧ groupId m = Some group)
       ∧ Z.of_nat (length msgs) ≤ Z.abs (orDefault limit 50)).
Proof.
  split.
  - intros me other page limit o s msgs pag Hresp.
    destruct (getMessages_page _ _ _ _ _ _ _ _ Hresp) as (slice & Hpage & -> & _).
    split.
    + intros m Hin. rewrite elem_of_reverse in Hin.
      destruct (findPage_elem _ _ _ _ _ _ Hpage Hin) as [Hstored Hq].
      apply directQuery_true in Hq. tauto.
    + rewrite length_reverse.
      rewrite (findPage_length _ _ _ _ _ Hpage)
        by (by apply orDefault_nonzero). lia.
  - intros group page limit o s msgs pag.
    unfold getGroupMessages, queryPromise.
    assert (Hempty : ∀ (l : list Message) p, json200page [] p = json200page l pag →
              (∀ m, m ∈ l → m ∈ messages s ∧ groupId m = Some group)
              ∧ Z.of_nat (length l) ≤ Z.abs (orDefault limit 50)).
    { intros l p [= <- _]. split; [by intros m ?%elem_of_nil|simpl; lia]. }
    destruct o as [e|e|]; simpl; try apply Hempty.
    destruct (findPage _ _ _ _) as [slice|] eqn:Hpage; simpl; [|apply Hempty].
    destruct (decide (e < 3000)); simpl; [|apply Hempty].
    intros [= <- _]. split.
    + intros m Hin. rewrite elem_of_reverse in Hin.
      destruct (findPage_elem _ _ _ _ _ _ Hpage Hin) as [Hstored Hq].
      by apply groupQuery_true in Hq.
    + rewrite length_reverse.
      rewrite (findPage_length _ _ _ _ _ Hpage)
        by (by apply orDefault_nonzero). lia.
Qed.

Lemma ceilDiv_bounds (a b : Z) :
  0 < b → (ceilDiv a b - 1) * b < a ∧ a ≤ ceilDiv a b * b.
Proof.
  intros Hb. unfold ceilDiv.
  pose proof (Z.div_mod (- a) b ltac:(lia)) as Hdm.
  pose proof (Z.mod_pos_bound (- a) b Hb) as Hr.
  nia.
Qed.

(** X13.  Pagination is coherent.  For a page number and a limit of at
    least 1, a group fetch whose query settles in time answers with the
    requested page number, the number of messages of the group as total,
    the least number of pages of that size that hold them all as
    [totalPages], a page of exactly the messages left after the skipped
    ones, up to the limit, and [hasMore] true exactly when the page is
    not the last one.  A direct fetch that answers with a page reports
    the same. *)
Theorem pagination_is_coherent (p L : Z) :
  1 ≤ p → 1 ≤ L →
  (∀ group e s,
     e < 3000 →
     ∃ msgs pag,
       (getGroupMessages group (Some p) (Some L) (fulfilled e) s).2
       = json200page msgs pag
       ∧ currentPage pag = p
       ∧ totalMessages pag = countDocuments (groupQuery group) (messages s)
       ∧ (totalPages pag - 1) * L < totalMessages pag ≤ totalPages pag * L
       ∧ Z.of_nat (length msgs)
         = Z.max 0 (Z.min L (totalMessages pag - (p - 1) * L))
       ∧ (hasMore pag = true ↔ p < totalPages pag))
  ∧ (∀ me other o s msgs pag,
       (getMessages me other (Some p) (Some L) o s).2 = json200page msgs pag →
       currentPage pag = p
       ∧ totalMessages pag = countDocuments (directQuery me other) (messages s)
       ∧ (totalPages pag - 1) * L < totalMessages pag ≤ totalPages pag * L
       ∧ Z.of_nat (length msgs)
         = Z.max 0 (Z.min L (totalMessages pag - (p - 1) * L))
       ∧ (hasMore pag = true ↔ p < totalPages pag)).
Proof.
  intros Hp HL.
  assert (Hop : orDefault (Some p) 1 = p)
    by (unfold orDefault; rewrite decide_False by lia; done).
  assert (HoL : orDefault (Some L) 50 = L)
    by (unfold orDefault; rewrite decide_False by lia; done).
  assert (Harith : ∀ total len,
            Z.of_nat len = Z.max 0 (Z.min (Z.abs L) (total - (p - 1) * L)) →
            (ceilDiv total L - 1) * L < total ≤ ceilDiv total L * L
            ∧ Z.of_nat len = Z.max 0 (Z.min L (total - (p - 1) * L))
            ∧ (bool_decide ((p - 1) * L + Z.of_nat len < total) = true
               ↔ p < ceilDiv total L)).
  { intros total len Hlen.
    pose proof (ceilDiv_bounds total L ltac:(lia)) as [Hlo Hhi].
    rewrite Z.abs_eq in Hlen by lia.
    split_and!; [lia|lia|done|]. rewrite bool_decide_eq_true. nia. }
  split.
  - intros group e s He.
    destruct (findPage (groupQuery group) ((p - 1) * L) L (messages s))
      as [slice|] eqn:Hpage.
    2:{ unfold findPage in Hpage. rewrite decide_False in Hpage by nia. done. }
    pose proof (getGroupMessages_page group (Some p) (Some L) e s slice He) as Hresp.
    rewrite Hop, HoL in Hresp. specialize (Hresp Hpage).
    eexists _, _. split; [exact Hresp|]. simpl.
    pose proof (findPage_length _ _ _ _ _ Hpage ltac:(lia)) as Hlen.
    destruct (Harith _ _ Hlen) as (Hb & Hl & Hm).
    rewrite length_reverse. split_and!; try done; lia.
  - intros me other o s msgs pag Hresp.
    destruct (getMessages_page _ _ _ _ _ _ _ _ Hresp) as (slice & Hpage & -> & ->).
    rewrite Hop, HoL in *. simpl.
    pose proof (findPage_length _ _ _ _ _ Hpage ltac:(lia)) as Hlen.
    rewrite <- (length_reverse slice) in Hlen.
    destruct (Harith _ _ Hlen) as (Hb & Hl & Hm).
    split_and!; try done; lia.
Qed.

Lemma pagination_is_coherent_witness :
  1 ≤ 2 ∧ 1 ≤ 2
  ∧ ∃ msgs pag,
      (getGroupMessages "g1" (Some 2) (Some 2) (fulfilled 40) groupChat).2
      = json200page msgs pag
      ∧ currentPage pag = 2.
Proof.
  assert (Hp : 1 ≤ 2) by lia.
  split_and!; [exact Hp|exact Hp|].
  destruct (pagination_is_coherent 2 2 Hp Hp) as [Hgroup _].
  destruct (Hgroup "g1" 40 groupChat ltac:(lia)) as (msgs & pag & Hresp & Hcur & _).
  exists msgs, pag. split; [exact Hresp|exact Hcur].
Defined.




(** ** Group administration *)

Lemma elem_of_newSet (x : string) (l : list string) : x ∈ newSet l ↔ x ∈ l.
Proof.
  induction l as [|y l IH]; simpl; [done|].
  rewrite !elem_of_cons, list_elem_of_filter, IH.
  destruct (decide (x = y)); naive_solver.
Qed.

Lemma NoDup_newSet (l : list string) : NoDup (newSet l).
Proof.
  induction l as [|y l IH]; simpl; [apply NoDup_nil_2|].
  apply NoDup_cons. split; [|by apply NoDup_filter].
  rewrite list_elem_of_filter. by intros [? _].
Qed.

Lemma pushMissing_spec (current requested : list string) :
  ∃ added,
    pushMissing current requested = current ++ added
    ∧ (∀ x, x ∈ added ↔ x ∈ requested ∧ x ∉ current)
    ∧ NoDup added.
Proof.
  unfold pushMissing. revert current.
  induction requested as [|r requested IH]; intros current; simpl.
  - exists []. rewrite app_nil_r. split_and!; [done| |apply NoDup_nil_2].
    intros x. split; [by intros ?%elem_of_nil|]. by intros [?%elem_of_nil _].
  - destruct (decide (r ∈ current)) as [Hin|Hin].
    + destruct (IH current) as (added & -> & Hadded & Hnd).
      exists added. split_and!; [done| |done].
      intros x. rewrite Hadded, elem_of_cons. naive_solver.
    + destruct (IH (current ++ [r])) as (added & -> & Hadded & Hnd).
      exists (r :: added). rewrite <- app_assoc. split_and!; [done| |].
      * intros x. rewrite !elem_of_cons, Hadded, elem_of_app,
          list_elem_of_singleton.
        destruct (decide (x = r)); naive_solver.
      * apply NoDup_cons. split; [|done].
        rewrite Hadded, elem_of_app, list_elem_of_singleton. naive_solver.
Qed.

(** X15.  A group is created with each member once, the creator first
    (whether or not the request lists the creator) and as the only admin,
    every requested member included and nobody else; the request is
    refused with 400, and nothing stored, exactly when the name is empty
    or the member list is missing or empty. *)
Theorem createGroup_builds_a_sound_group
  (reg : JsMap.t string) (creatorId gid groupName groupDescription : string)
  (membersField : option (list string)) (coll : gmap string Group) :
  (groupName ≠ "" ∧ (∃ requested, membersField = Some requested ∧ requested ≠ [])
   → ∃ g rest,
       (createGroup reg creatorId gid groupName groupDescription membersField
          coll).2 = group201 g
       ∧ (createGroup reg creatorId gid groupName groupDescription membersField
            coll).1.1 = <[gid := g]> coll
       ∧ name g = groupName ∧ description g = groupDescription
       ∧ createdBy g = creatorId ∧ admins g = [creatorId]
       ∧ members g = creatorId :: rest
       ∧ NoDup (members g)
       ∧ ∀ x, x ∈ members g
              ↔ x = creatorId ∨ x ∈ default [] membersField)
  ∧ (groupName = "" ∨ membersField = None ∨ membersField = Some []
     → createGroup reg creatorId gid groupName groupDescription membersField coll
       = (coll, [], groupText 400 "Group name and members are required")).
Proof.
  unfold createGroup. split.
  - intros (Hname & requested & -> & Hne).
    destruct requested as [|first others]; [done|].
    rewrite decide_False by done. simpl.
    eexists _, _. split_and!; try done.
    + apply (NoDup_newSet (creatorId :: first :: others)).
    + intros x.
      rewrite (elem_of_newSet x (creatorId :: first :: others)).
      by rewrite elem_of_cons.
  - intros [-> | [-> | ->]]; try done.
    destruct membersField as [[|first others]|]; done.
Qed.

(** X16.  Adding members as an admin keeps the member list as it was and
    appends, once each, exactly the requested users who were not members
    yet: nobody is listed twice because of it, a user requested twice is
    added once, and the name, description, admins and creator are
    untouched. *)
Theorem addMembers_appends_the_missing_ones
  (reg : JsMap.t string) (user gid : string) (requested : list string)
  (coll : gmap string Group) (g : Group) :
  coll !! gid = Some g →
  user ∈ admins g →
  ∃ g' added,
    (addMembers reg user gid requested coll).2 = group200 g'
    ∧ (addMembers reg user gid requested coll).1.1 = <[gid := g']> coll
    ∧ members g' = members g ++ added
    ∧ NoDup added
    ∧ (∀ x, x ∈ added ↔ x ∈ requested ∧ x ∉ members g)
    ∧ (∀ x, x ∈ members g' ↔ x ∈ members g ∨ x ∈ requested)
    ∧ (NoDup (members g) → NoDup (members g'))
    ∧ name g' = name g ∧ description g' = description g
    ∧ admins g' = admins g ∧ createdBy g' = createdBy g.
Proof.
  intros Hget Hadmin. unfold addMembers. rewrite Hget.
  rewrite decide_True by done. simpl.
  destruct (pushMissing_spec (members g) requested) as (added & Hpush & Hadded & Hnd).
  eexists _, added. split_and!; try done; simpl; rewrite Hpush.
  - intros x. rewrite elem_of_app, Hadded.
    destruct (decide (x ∈ members g)); naive_solver.
  - intros Hg. apply NoDup_app. split_and!; [done| |done].
    intros x Hx Hin. apply Hadded in Hin. naive_solver.
Qed.

Lemma addMembers_appends_the_missing_ones_witness :
  let g := mkGroup "team" "" ["alice"; "bob"] ["alice"] "alice" in
  let coll : gmap string Group := {[ "g1" := g ]} in
  coll !! "g1" = Some g
  ∧ "alice" ∈ admins g
  ∧ ∃ g' added,
      (addMembers [] "alice" "g1" ["bob"; "carol"; "carol"] coll).2 = group200 g'
      ∧ members g' = members g ++ added
      ∧ NoDup added.
Proof.
  intros g coll.
  assert (Hget : coll !! "g1" = Some g) by (vm_compute; reflexivity).
  assert (Hadmin : "alice" ∈ admins g) by (simpl; left).
  split_and!; [exact Hget|exact Hadmin|].
  destruct (addMembers_appends_the_missing_ones
              [] "alice" "g1" ["bob"; "carol"; "carol"] coll g Hget Hadmin)
    as (g' & added & Hresp & _ & Hmem & Hnd & _).
  exists g', added. split_and!; [exact Hresp|exact Hmem|exact Hnd].
Defined.

Lemma filter_ne_absent (x : string) (l : list string) :
  x ∉ l → filter (λ m, m ≠ x) l = l.
Proof.
  induction l as [|y l IH]; [done|]. intros Hnot.
  rewrite filter_cons_True by (intros ->; apply Hnot; left).
  rewrite IH; [done|]. intros Hin. apply Hnot. by right.
Qed.

(** What an admin's addition stores. *)
Lemma addMembers_by_admin (reg : JsMap.t string) (admin gid : string)
  (requested : list string) (coll : gmap string Group) (g : Group) :
  coll !! gid = Some g →
  admin ∈ admins g →
  ∃ g', (addMembers reg admin gid requested coll).1.1 = <[gid := g']> coll
        ∧ ∀ x, x ∈ members g' ↔ x ∈ members g ∨ x ∈ requested.
Proof.
  intros Hget Hadmin. unfold addMembers. rewrite Hget.
  rewrite decide_True by done. simpl.
  destruct (pushMissing_spec (members g) requested) as (added & Hpush & Hadded & _).
  eexists. split; [done|]. simpl. rewrite Hpush.
  intros x. rewrite elem_of_app, Hadded.
  destruct (decide (x ∈ members g)); tauto.
Qed.

Lemma filter_ne_sound (memberId : string) (g : Group) :
  groupSound g →
  createdBy g ≠ memberId →
  groupSound (mkGroup (name g) (description g)
                (filter (λ m, m ≠ memberId) (members g))
                (filter (λ a, a ≠ memberId) (admins g))
                (createdBy g)).
Proof.
  intros (Hnd & Hin & Hadm) Hne. unfold groupSound. simpl.
  split_and!.
  - by apply NoDup_filter.
  - apply list_elem_of_filter. by split.
  - rewrite Hadm. rewrite filter_cons_True by done. by rewrite filter_nil.
Qed.

Lemma groupStep_sound (reg : JsMap.t string) (op : GroupOp)
  (coll : gmap string Group) :
  map_Forall (λ _ g, groupSound g) coll →
  map_Forall (λ _ g, groupSound g) (groupStep reg op coll).
Proof.
  intros Hcoll. destruct op; simpl.
  - unfold createGroup.
    destruct membersField as [[|first others]|]; try done.
    destruct (decide _); [done|]. simpl.
    apply map_Forall_insert_2; [|done]. unfold groupSound. simpl.
    split_and!; [|left|done].
    apply (NoDup_newSet (creatorId :: first :: others)).
  - unfold addMembers. destruct (coll !! gid) as [g|] eqn:Hget; [|done].
    destruct (decide _); [|done]. simpl.
    apply map_Forall_insert_2; [|done].
    destruct (Hcoll _ _ Hget) as (Hnd & Hin & Hadm).
    destruct (pushMissing_spec (members g) requested)
      as (added & Hpush & Hadded & Hnda).
    unfold groupSound. simpl. rewrite Hpush. split_and!; [| |done].
    + apply NoDup_app. split_and!; [done| |done].
      intros x Hx Hxa. apply Hadded in Hxa. tauto.
    + apply elem_of_app. by left.
  - unfold removeMember. destruct (coll !! gid) as [g|] eqn:Hget; [|done].
    destruct (decide _); [|done]. destruct (decide _); [done|]. simpl.
    apply map_Forall_insert_2; [|done].
    apply filter_ne_sound; [by eapply Hcoll|done].
  - unfold updateGroup. destruct (coll !! gid) as [g|] eqn:Hget; [|done].
    destruct (decide _); [|done]. simpl.
    apply map_Forall_insert_2; [|done]. by apply (Hcoll _ _ Hget).
  - unfold leaveGroup. destruct (coll !! gid) as [g|] eqn:Hget; [|done].
    destruct (decide _); [done|]. simpl.
    apply map_Forall_insert_2; [|done].
    apply filter_ne_sound; [by eapply Hcoll|done].
Qed.

(** X17.  Whatever requests are made (creations, additions, removals,
    updates, departures, by whoever), every group keeps each member once,
    its creator as a member, and its creator as its one and only admin:
    nobody else ever becomes admin, and the creator can neither be
    removed nor leave.  So the creator can always read the group's
    details. *)
Theorem groups_stay_sound
  (reg : JsMap.t string) (ops : list GroupOp) (coll : gmap string Group) :
  map_Forall (λ _ g, groupSound g) coll →
  map_Forall (λ _ g, groupSound g) (groupRun reg ops coll)
  ∧ ∀ gid g, groupRun reg ops coll !! gid = Some g →
             getGroupDetails (createdBy g) gid (groupRun reg ops coll)
             = group200 g.
Proof.
  intros Hcoll.
  assert (Hrun : map_Forall (λ _ g, groupSound g) (groupRun reg ops coll)).
  { unfold groupRun. revert coll Hcoll.
    induction ops as [|op ops IH]; intros coll Hcoll; simpl; [done|].
    by apply IH, groupStep_sound. }
  split; [exact Hrun|].
  intros gid g Hget. unfold getGroupDetails. rewrite Hget.
  destruct (Hrun _ _ Hget) as (_ & Hin & _). by rewrite decide_True.
Qed.

Lemma groups_stay_sound_witness :
  map_Forall (λ _ g, groupSound g) (∅ : gmap string Group)
  ∧ map_Forall (λ _ g, groupSound g)
      (groupRun [] [gCreate "alice" "g1" "team" "" (Some ["bob"; "alice"; "bob"]);
                    gAddMembers "alice" "g1" ["carol"; "bob"];
                    gRemoveMember "alice" "g1" "alice";
                    gRemoveMember "bob" "g1" "carol";
                    gLeave "bob" "g1";
                    gLeave "alice" "g1"] ∅).
Proof.
  assert (H : map_Forall (λ _ g, groupSound g) (∅ : gmap string Group))
    by apply map_Forall_empty.
  split; [exact H|].
  apply (groups_stay_sound [] _ ∅ H).
Defined.

(** X18.  An admin's removal of a user other than the creator takes
    exactly that user out of the members and the admins and keeps
    everybody else, in order; the removed user, if online, is sent
    [removedFromGroup] with the group's id.  Removing a user who is not a
    member is accepted and changes no membership.  The creator cannot be
    removed: the request is refused with 400 and nothing changes. *)
Theorem removeMember_takes_out_exactly_that_user
  (reg : JsMap.t string) (user gid memberId : string)
  (coll : gmap string Group) (g : Group) :
  coll !! gid = Some g →
  user ∈ admins g →
  (createdBy g ≠ memberId →
   ∃ g',
     (removeMember reg user gid memberId coll).2 = group200 g'
     ∧ (removeMember reg user gid memberId coll).1.1 = <[gid := g']> coll
     ∧ members g' = filter (λ m, m ≠ memberId) (members g)
     ∧ (memberId ∉ members g') ∧ (memberId ∉ admins g')
     ∧ (∀ x, x ≠ memberId → (x ∈ members g' ↔ x ∈ members g))
     ∧ (memberId ∉ members g → members g' = members g)
     ∧ (∀ sock, JsMap.get reg memberId = Some sock → sock ≠ "" →
                (sock, removedFromGroup gid)
                ∈ (removeMember reg user gid memberId coll).1.2))
  ∧ (createdBy g = memberId →
     removeMember reg user gid memberId coll
     = (coll, [], groupText 400 "Cannot remove group creator")).
Proof.
  intros Hget Hadmin. unfold removeMember. rewrite Hget.
  rewrite decide_True by done. split.
  - intros Hne. rewrite decide_False by done. simpl.
    eexists. split_and!; try done; simpl.
    + rewrite list_elem_of_filter. tauto.
    + rewrite list_elem_of_filter. tauto.
    + intros x Hx. rewrite list_elem_of_filter. tauto.
    + apply filter_ne_absent.
    + intros sock Hsock Hnes. apply elem_of_app. right.
      assert (truthy (JsMap.get reg memberId) = Some sock) as ->
        by by apply truthy_Some.
      left.
  - intros Heq. by rewrite decide_True.
Qed.

Lemma removeMember_takes_out_exactly_that_user_witness :
  let g := mkGroup "team" "" ["alice"; "bob"; "carol"] ["alice"] "alice" in
  let coll : gmap string Group := {[ "g1" := g ]} in
  coll !! "g1" = Some g
  ∧ "alice" ∈ admins g
  ∧ removeMember (onlineUsers sampleStore) "alice" "g1" "alice" coll
    = (coll, [], groupText 400 "Cannot remove group creator").
Proof.
  intros g coll.
  assert (Hget : coll !! "g1" = Some g) by (vm_compute; reflexivity).
  assert (Hadmin : "alice" ∈ admins g) by (simpl; left).
  split_and!; [exact Hget|exact Hadmin|].
  by apply (removeMember_takes_out_exactly_that_user
              (onlineUsers sampleStore) "alice" "g1" "alice" coll g Hget Hadmin).
Defined.

Lemma filter_ne_snoc (x : string) (l : list string) :
  x ∉ l → filter (λ m, m ≠ x) (l ++ [x]) = l.
Proof.
  intros Hnot. rewrite filter_app.
  rewrite filter_cons_False by (by intros H; apply H).
  rewrite filter_nil, app_nil_r. by apply filter_ne_absent.
Qed.

(** X19.  Adding then removing is a round trip: in a sound group, an
    admin who adds a user that was not a member and then removes that
    user gets back the collection as it was. *)
Theorem add_then_remove_restores
  (reg : JsMap.t string) (user gid x : string)
  (coll : gmap string Group) (g : Group) :
  coll !! gid = Some g →
  groupSound g →
  user ∈ admins g →
  x ∉ members g →
  (removeMember reg user gid x (addMembers reg user gid [x] coll).1.1).1.1
  = coll.
Proof.
  intros Hget (Hnd & Hcreator & Hadm) Hadmin Hnot.
  assert (Hx : createdBy g ≠ x) by (by intros <-).
  unfold addMembers. rewrite Hget. rewrite decide_True by done. simpl.
  unfold removeMember. rewrite lookup_insert_eq. simpl.
  rewrite decide_True by done. rewrite decide_False by done. simpl.
  rewrite insert_insert_eq. unfold pushMissing. simpl.
  rewrite decide_False by done. rewrite (filter_ne_snoc _ _ Hnot).
  rewrite Hadm at 1. rewrite filter_cons_True by done. rewrite filter_nil.
  rewrite <- Hadm. apply insert_id. rewrite Hget. by destruct g.
Qed.

Lemma add_then_remove_restores_witness :
  let g := mkGroup "team" "" ["alice"; "bob"] ["alice"] "alice" in
  let coll : gmap string Group := {[ "g1" := g ]} in
  coll !! "g1" = Some g
  ∧ groupSound g
  ∧ "alice" ∈ admins g
  ∧ ("carol" ∉ members g)
  ∧ (removeMember [] "alice" "g1" "carol"
       (addMembers [] "alice" "g1" ["carol"] coll).1.1).1.1
    = coll.
Proof.
  intros g coll.
  assert (Hget : coll !! "g1" = Some g) by (vm_compute; reflexivity).
  assert (Hsound : groupSound g).
  { split_and!; [compute_done|simpl; left|done]. }
  assert (Hadmin : "alice" ∈ admins g) by (simpl; left).
  assert (Hnot : "carol" ∉ members g) by compute_done.
  split_and!; [exact Hget|exact Hsound|exact Hadmin|exact Hnot|].
  apply (add_then_remove_restores [] "alice" "g1" "carol" coll g
           Hget Hsound Hadmin Hnot).
Defined.

(** X20.  Access to a group's details follows membership.  A user whom an
    admin has just added can read the details; a user who has just left
    is refused with 403, while every other member still reads them; and
    leaving is refused with 400 for the creator, with nothing changed. *)
Theorem group_access_follows_membership
  (reg : JsMap.t string) (gid : string) (coll : gmap string Group) (g : Group) :
  coll !! gid = Some g →
  (∀ admin requested x,
     admin ∈ admins g → x ∈ requested →
     ∃ g', getGroupDetails x gid (addMembers reg admin gid requested coll).1.1
           = group200 g')
  ∧ (∀ user,
       createdBy g ≠ user →
       (leaveGroup reg user gid coll).2
       = groupText 200 "Left group successfully"
       ∧ getGroupDetails user gid (leaveGroup reg user gid coll).1.1
         = groupText 403 "You are not a member of this group"
       ∧ ∀ other, other ≠ user → other ∈ members g →
                  ∃ g', getGroupDetails other gid
                          (leaveGroup reg user gid coll).1.1 = group200 g')
  ∧ leaveGroup reg (createdBy g) gid coll
    = (coll, [],
       groupText 400 "Creator cannot leave group. Transfer ownership first.").
Proof.
  intros Hget. split_and!.
  - intros admin requested x Hadmin Hx.
    destruct (addMembers_by_admin reg admin gid requested
                coll g Hget Hadmin) as (g' & Hcoll & Hmem).
    exists g'. unfold getGroupDetails. rewrite Hcoll, lookup_insert_eq.
    rewrite decide_True; [done|]. apply Hmem. by right.
  - intros user Hne. unfold leaveGroup. rewrite Hget.
    rewrite decide_False by done. simpl. unfold getGroupDetails.
    rewrite lookup_insert_eq. simpl. split_and!; [done| |].
    + rewrite decide_False; [done|]. rewrite list_elem_of_filter. tauto.
    + intros other Ho Hin. eexists. rewrite decide_True; [done|].
      by apply list_elem_of_filter.
  - unfold leaveGroup. rewrite Hget. by rewrite decide_True.
Qed.

Lemma group_access_follows_membership_witness :
  let g := mkGroup "team" "" ["alice"; "bob"; "carol"] ["alice"] "alice" in
  let coll : gmap string Group := {[ "g1" := g ]} in
  coll !! "g1" = Some g
  ∧ getGroupDetails "bob" "g1" (leaveGroup [] "bob" "g1" coll).1.1
    = groupText 403 "You are not a member of this group".
Proof.
  intros g coll.
  assert (Hget : coll !! "g1" = Some g) by (vm_compute; reflexivity).
  split; [exact Hget|].
  destruct (group_access_follows_membership [] "g1" coll g Hget)
    as (_ & Hleave & _).
  by apply (Hleave "bob").
Defined.

(** X21.  Requests on groups fail without effect.  On a group that does
    not exist, adding, removing, updating and leaving answer 404, as does
    reading the details.  On an existing group, adding, removing and
    updating by a user who is not one of its admins answer 403.  In all
    these cases the collection is unchanged and nothing is emitted. *)
Theorem group_requests_fail_without_effect
  (reg : JsMap.t string) (user gid : string) (coll : gmap string Group) :
  (coll !! gid = None →
   (∀ requested, addMembers reg user gid requested coll
                 = (coll, [], groupText 404 "Group not found"))
   ∧ (∀ memberId, removeMember reg user gid memberId coll
                  = (coll, [], groupText 404 "Group not found"))
   ∧ (∀ newName newDescription,
        updateGroup reg user gid newName newDescription coll
        = (coll, [], groupText 404 "Group not found"))
   ∧ leaveGroup reg user gid coll = (coll, [], groupText 404 "Group not found")
   ∧ getGroupDetails user gid coll = groupText 404 "Group not found")
  ∧ (∀ g, coll !! gid = Some g → user ∉ admins g →
     (∀ requested, addMembers reg user gid requested coll
                   = (coll, [], groupText 403 "Only admins can add members"))
     ∧ (∀ memberId, removeMember reg user gid memberId coll
                    = (coll, [], groupText 403 "Only admins can remove members"))
     ∧ (∀ newName newDescription,
          updateGroup reg user gid newName newDescription coll
          = (coll, [], groupText 403 "Only admins can update group"))).
Proof.
  split.
  - intros Hnone.
    unfold addMembers, removeMember, updateGroup, leaveGroup, getGroupDetails.
    by rewrite Hnone.
  - intros g Hget Hnot.
    unfold addMembers, removeMember, updateGroup. rewrite Hget.
    by destruct (decide (user ∈ admins g)).
Qed.

(** ** DuplicateSuppressor: the window and the key *)

(** X22.  The suppression window is fixed, not sliding: a suppressed
    duplicate does not extend it.  After a group send accepted at a
    non-zero time [t1] and a duplicate suppressed at [t2], an identical
    send at [t3], at least 3000 ms after [t1], is accepted even when it
    comes less than 3000 ms after [t2]; two messages are then stored. *)
Theorem suppressed_duplicate_does_not_extend_the_window
  (s : Store) (sender group body : string) (t1 t2 t3 : Z) (m1 : Message) :
  (sendGroupMessage sender group body t1 s).2 = json201 m1 →
  t1 ≠ 0 → t2 - t1 < 3000 → 3000 ≤ t3 - t1 →
  let s1 := (sendGroupMessage sender group body t1 s).1.1 in
  let s2 := (sendGroupMessage sender group body t2 s1).1.1 in
  (sendGroupMessage sender group body t2 s1).2
  = json200 "Duplicate request ignored"
  ∧ ∃ m3, (sendGroupMessage sender group body t3 s2).2 = json201 m3
          ∧ messages (sendGroupMessage sender group body t3 s2).1.1
            = messages s ++ [m1; m3].
Proof.
  intros Hfirst Ht1 H12 H13.
  destruct (sendGroupMessage_accepted _ _ _ _ _ _ Hfirst)
    as (Hg & Hb & _ & _ & Hs1).
  simpl. rewrite Hs1. set (s1 := withMessages _ _).
  assert (Hget : messageCache s1 !! cacheKey sender group body = Some t1)
    by apply lookup_insert_eq.
  rewrite (sendGroupMessage_duplicate _ _ _ _ _ _ Hg Hb Hget Ht1 H12). simpl.
  split; [done|].
  destruct (sendGroupMessage_after_window _ _ _ _ _ _ Hg Hb Hget H13)
    as [Hresp Hmsgs].
  eexists. split; [exact Hresp|]. rewrite Hmsgs. simpl.
  by rewrite <- app_assoc.
Qed.

Lemma suppressed_duplicate_does_not_extend_the_window_witness :
  (sendGroupMessage "alice" "g1" "hi" 1000 sampleStore).2
  = json201 (groupDocument "alice" "g1" "hi" 1000 sampleStore)
  ∧ (1000 : Z) ≠ 0 ∧ 3500 - 1000 < 3000 ∧ 3000 ≤ 4200 - 1000
  ∧ (sendGroupMessage "alice" "g1" "hi" 3500 groupChat).2
    = json200 "Duplicate request ignored".
Proof.
  assert (H1 : (sendGroupMessage "alice" "g1" "hi" 1000 sampleStore).2
               = json201 (groupDocument "alice" "g1" "hi" 1000 sampleStore))
    by (vm_compute; reflexivity).
  assert (H0 : (1000 : Z) ≠ 0) by lia.
  assert (Ha : 3500 - 1000 < 3000) by lia.
  assert (Hb : 3000 ≤ 4200 - 1000) by lia.
  split_and!; [exact H1|exact H0|exact Ha|exact Hb|].
  apply (suppressed_duplicate_does_not_extend_the_window
           sampleStore "alice" "g1" "hi" 1000 3500 4200 _ H1 H0 Ha Hb).
Defined.

Lemma colonFree_split (s1 s2 r1 r2 : string) :
  colonFree s1 = true → colonFree s2 = true →
  s1 +:+ ":" +:+ r1 = s2 +:+ ":" +:+ r2 →
  s1 = s2 ∧ r1 = r2.
Proof.
  revert s2. induction s1 as [|c1 s1 IH]; intros [|c2 s2].
  - intros _ _ H. simpl in H. by injection H as H.
  - intros _ [Hc _]%andb_prop H. simpl in H. injection H as Hc2 _.
    subst c2. by vm_compute in Hc.
  - intros [Hc _]%andb_prop _ H. simpl in H. injection H as Hc1 _.
    subst c1. by vm_compute in Hc.
  - intros [_ H1]%andb_prop [_ H2]%andb_prop H. simpl in H.
    injection H as Hc Hrest. subst c2.
    by destruct (IH _ H1 H2 Hrest) as [-> ->].
Qed.

(** X23.  The cache key identifies the request: when the sender's and the
    group's ids hold no colon, two requests have the same key only if
    they have the same sender, the same group and the same body, so a
    send is never suppressed because of a different one. *)
Theorem cacheKey_identifies_the_request
  (sender1 group1 body1 sender2 group2 body2 : string) :
  colonFree sender1 = true → colonFree group1 = true →
  colonFree sender2 = true → colonFree group2 = true →
  cacheKey sender1 group1 body1 = cacheKey sender2 group2 body2 →
  sender1 = sender2 ∧ group1 = group2 ∧ body1 = body2.
Proof.
  unfold cacheKey. intros Hs1 Hg1 Hs2 Hg2 Hkey.
  destruct (colonFree_split _ _ _ _ Hs1 Hs2 Hkey) as [-> Hrest].
  destruct (colonFree_split _ _ _ _ Hg1 Hg2 Hrest) as [-> ->]. done.
Qed.

Lemma cacheKey_identifies_the_request_witness :
  colonFree "alice" = true ∧ colonFree "g1" = true
  ∧ cacheKey "alice" "g1" "re: hi" = cacheKey "alice" "g1" "re: hi"
  ∧ "re: hi" = "re: hi".
Proof.
  assert (Hs : colonFree "alice" = true) by reflexivity.
  assert (Hg : colonFree "g1" = true) by reflexivity.
  assert (Hk : cacheKey "alice" "g1" "re: hi" = cacheKey "alice" "g1" "re: hi")
    by reflexivity.
  split_and!; [exact Hs|exact Hg|exact Hk|].
  apply (cacheKey_identifies_the_request
           "alice" "g1" "re: hi" "alice" "g1" "re: hi" Hs Hg Hs Hg Hk).
Defined.

(** ** StatusTracker: acknowledgments in flight together *)

(** A handler that resumes on the state it was suspended on is the
    handler run to completion. *)
Lemma resume_suspend (messageId : nat) (uid : string) (now : Z) (s : Store) :
  resume (suspend ackDelivered messageId uid s) now s
  = messageDelivered messageId uid now s
  ∧ resume (suspend ackRead messageId uid s) now s
    = messageRead messageId uid now s.
Proof.
  unfold resume, suspend, messageDelivered, messageRead, deliveredWrite,
    readWrite. simpl.
  by destruct (findById (messages s) messageId).
Qed.

(** C1, what the code does.  The delivery acknowledgment decides its write
    on the document it read before its await, and the write carries no
    condition on the stored status.  So, for a direct message that is
    [sent]: when a delivery acknowledgment is suspended at its await, a
    read acknowledgment then runs to completion (the message is stored
    [read]), and the delivery acknowledgment then resumes, the message is
    stored [delivered]: its status has moved backward from [read] to
    [delivered]. *)
Theorem late_delivered_write_overwrites_read
  (s : Store) (id : nat) (uid reader : string) (t1 t2 : Z) (m : Message) :
  findById (messages s) id = Some m →
  groupId m = None →
  status m = sent →
  let inFlight := suspend ackDelivered id uid s in
  let s1 := (messageRead id reader t1 s).1 in
  let s2 := (resume inFlight t2 s1).1 in
  status <$> findById (messages s1) id = Some read
  ∧ status <$> findById (messages s2) id = Some delivered
  ∧ (rank delivered < rank read)%nat.
Proof.
  intros Hfind Hg Hst. simpl.
  unfold resume, suspend, messageRead, deliveredWrite. simpl.
  rewrite Hfind. simpl. rewrite Hg, Hst. simpl.
  rewrite !findById_update_same by done. rewrite Hfind. simpl.
  split_and!; [done|done|lia].
Qed.

Lemma late_delivered_write_overwrites_read_witness :
  findById (messages pendingChat) 0
  = Some (mkMessage 0 "alice" (Some "dave") None "hi" sent [] [] 1000)
  ∧ status <$> findById (messages (messageRead 0 "dave" 2000 pendingChat).1) 0
    = Some read
  ∧ status <$> findById
                 (messages
                    (resume (suspend ackDelivered 0 "dave" pendingChat) 2001
                       (messageRead 0 "dave" 2000 pendingChat).1).1) 0
    = Some delivered.
Proof.
  assert (H : findById (messages pendingChat) 0
              = Some (mkMessage 0 "alice" (Some "dave") None "hi" sent [] [] 1000))
    by (vm_compute; reflexivity).
  split; [exact H|].
  destruct (late_delivered_write_overwrites_read
              pendingChat 0 "dave" "dave" 2000 2001 _ H eq_refl eq_refl)
    as (Hread & Hdelivered & _).
  split; [exact Hread|exact Hdelivered].
Defined.

Lemma existsb_userId_absent (uid : string) (rs : list Receipt) :
  uid ∉ userId <$> rs →
  existsb (λ r, bool_decide (userId r = uid)) rs = false.
Proof.
  intros Hnot.
  destruct (existsb _ rs) eqn:Hex; [|done].
  by apply existsb_userId in Hex.
Qed.

(** X24.  Two delivery acknowledgments for the same group message and the
    same user that are in flight together are both recorded: when both
    handlers have read the message before either has written, each finds
    the user absent from [deliveredTo] and each pushes an entry, so the
    user is listed twice, once with each timestamp. *)
Theorem delivery_acks_in_flight_record_the_user_twice
  (s : Store) (id : nat) (uid : string) (t1 t2 : Z) (m : Message) :
  findById (messages s) id = Some m →
  is_Some (groupId m) →
  uid ∉ userId <$> deliveredTo m →
  let first := suspend ackDelivered id uid s in
  let second := suspend ackDelivered id uid s in
  let s1 := (resume first t1 s).1 in
  let s2 := (resume second t2 s1).1 in
  deliveredTo <$> findById (messages s2) id
  = Some (deliveredTo m ++ [mkReceipt uid t1; mkReceipt uid t2]).
Proof.
  intros Hfind [g Hg] Hnot. simpl.
  unfold resume, suspend, deliveredWrite. simpl.
  rewrite Hfind. simpl. rewrite Hg.
  rewrite (existsb_userId_absent _ _ Hnot). simpl.
  rewrite !findById_update_same by done. rewrite Hfind. simpl.
  by rewrite <- app_assoc.
Qed.

Lemma delivery_acks_in_flight_record_the_user_twice_witness :
  findById (messages groupChat) 0
  = Some (groupDocument "alice" "g1" "hi" 1000 sampleStore)
  ∧ is_Some (groupId (groupDocument "alice" "g1" "hi" 1000 sampleStore))
  ∧ ("dave" ∉ userId <$> deliveredTo
                          (groupDocument "alice" "g1" "hi" 1000 sampleStore))
  ∧ deliveredTo
      <$> findById
            (messages
               (resume (suspend ackDelivered 0 "dave" groupChat) 2001
                  (resume (suspend ackDelivered 0 "dave" groupChat) 2000
                     groupChat).1).1) 0
    = Some (deliveredTo (groupDocument "alice" "g1" "hi" 1000 sampleStore)
            ++ [mkReceipt "dave" 2000; mkReceipt "dave" 2001]).
Proof.
  assert (H : findById (messages groupChat) 0
              = Some (groupDocument "alice" "g1" "hi" 1000 sampleStore))
    by (vm_compute; reflexivity).
  assert (Hg : is_Some (groupId (groupDocument "alice" "g1" "hi" 1000 sampleStore)))
    by (eexists; reflexivity).
  assert (Hnot : "dave" ∉ userId <$> deliveredTo
                   (groupDocument "alice" "g1" "hi" 1000 sampleStore))
    by compute_done.
  split_and!; [exact H|exact Hg|exact Hnot|].
  apply (delivery_acks_in_flight_record_the_user_twice
           groupChat 0 "dave" 2000 2001 _ H Hg Hnot).
Defined.
